(** * Product API (server.js): the Express request pipeline over an in-memory store

    The development embeds [server.js] as pure functions over an explicit
    store.  One call of [app] is one request processed to completion: the
    middleware chain in the order the source registers it
    (bodyParser.json, logger, auth), then route dispatch in declaration
    order, then the error-handling middleware.

    Conventions of the embedding.
    - JSON values are [jsval]; JavaScript [undefined] is the [None] of a
      property read.  Objects are finite maps from property names to values
      (the order of keys shows only in the serialised text, which is not
      modelled).  Numbers are integers, computed with exactly; this is what
      IEEE doubles do below 2^53.
    - Strings are ASCII; [toLowerCase] lowers the letters A-Z.
    - [uuidv4()] is an input of [app]: the string the generator returns
      while this request is served.
    - The four routed methods are modelled; a request is given by its
      decoded path segments, its x-api-key header, [req.query] and what the
      body parser made of the body.
    - [console.log] and [console.error] are not modelled; instead [app]
      returns the list of the layers the request entered. *)

From stdpp Require Import base option list strings gmap.
From Stdlib Require Import ZArith Ascii.

#[local] Set Warnings "-register-all".

(** ** JavaScript values and the primitives the server uses *)

Module JS.

Inductive jsval : Type :=
| JNull
| JBool (b : bool)
| JNum (n : Z)
| JStr (s : string)
| JArr (l : list jsval)
| JObj (o : gmap string jsval).

Abbreviation object := (gmap string jsval).

(** ToBoolean, on the result of a property read. *)
Definition truthy (v : option jsval) : bool :=
  match v with
  | None | Some JNull => false
  | Some (JBool b) => b
  | Some (JNum n) => negb (n =? 0)%Z
  | Some (JStr s) => negb (String.eqb s "")
  | Some (JArr _) | Some (JObj _) => true
  end.

(** [v == null]: true for [null] and [undefined] only. *)
Definition loose_null (v : option jsval) : bool :=
  match v with
  | None | Some JNull => true
  | Some _ => false
  end.

(** [v === s] where [s] is a string or [undefined]. *)
Definition strict_eq_str (v : option jsval) (s : option string) : bool :=
  match v, s with
  | Some (JStr t), Some s => String.eqb t s
  | None, None => true
  | _, _ => false
  end.

Definition lower_ascii (c : ascii) : ascii :=
  let n := nat_of_ascii c in
  if (65 <=? n) && (n <=? 90) then ascii_of_nat (n + 32) else c.

Fixpoint toLowerCase (s : string) : string :=
  match s with
  | EmptyString => EmptyString
  | String c s' => String (lower_ascii c) (toLowerCase s')
  end.

(** [s.includes(sub)] *)
Fixpoint includes (s sub : string) : bool :=
  String.prefix sub s ||
  match s with
  | EmptyString => false
  | String _ s' => includes s' sub
  end.

(** *** parseInt with no radix argument *)

Definition is_ws (c : ascii) : bool :=
  let n := nat_of_ascii c in
  (n =? 9) || (n =? 10) || (n =? 11) || (n =? 12) || (n =? 13) || (n =? 32).

Fixpoint trim_start (s : string) : string :=
  match s with
  | String c s' => if is_ws c then trim_start s' else s
  | EmptyString => EmptyString
  end.

Definition digit_of (radix : Z) (c : ascii) : option Z :=
  let n := Z.of_nat (nat_of_ascii c) in
  let d :=
    if (48 <=? n)%Z && (n <=? 57)%Z then Some (n - 48)%Z
    else if (97 <=? n)%Z && (n <=? 122)%Z then Some (n - 87)%Z
    else if (65 <=? n)%Z && (n <=? 90)%Z then Some (n - 55)%Z
    else None in
  match d with
  | Some k => if (k <? radix)%Z then Some k else None
  | None => None
  end.

(** The longest prefix of radix digits, as a number; [acc] is [None] until
    the first digit is read. *)
Fixpoint parse_digits (radix : Z) (s : string) (acc : option Z) : option Z :=
  match s with
  | EmptyString => acc
  | String c s' =>
      match digit_of radix c with
      | Some d => parse_digits radix s' (Some (default 0%Z acc * radix + d)%Z)
      | None => acc
      end
  end.

Definition strip_sign (s : string) : Z * string :=
  match s with
  | String "-" s' => ((-1)%Z, s')
  | String "+" s' => (1%Z, s')
  | _ => (1%Z, s)
  end.

Definition strip_hex_prefix (s : string) : Z * string :=
  match s with
  | String "0" (String "x" s') => (16%Z, s')
  | String "0" (String "X" s') => (16%Z, s')
  | _ => (10%Z, s)
  end.

(** [None] is NaN. *)
Definition parseInt (s : string) : option Z :=
  let '(sign, s1) := strip_sign (trim_start s) in
  let '(radix, s2) := strip_hex_prefix s1 in
  (λ n, sign * n)%Z <$> parse_digits radix s2 None.

(** [n || d] for a number [n]: NaN and 0 are falsy. *)
Definition num_or (n : option Z) (d : Z) : Z :=
  match n with
  | Some k => if (k =? 0)%Z then d else k
  | None => d
  end.

(** *** Array.prototype.slice *)

Definition rel_index (len i : Z) : Z :=
  if (i <? 0)%Z then Z.max (len + i) 0 else Z.min i len.

Definition slice {A} (l : list A) (start end_ : Z) : list A :=
  let len := Z.of_nat (length l) in
  let k := rel_index len start in
  let final := rel_index len end_ in
  take (Z.to_nat (final - k)) (drop (Z.to_nat k) l).

(** [l.find(f)] and [l.findIndex(f)] ([None] for -1). *)
Fixpoint find {A} (f : A → bool) (l : list A) : option A :=
  match l with
  | [] => None
  | x :: l' => if f x then Some x else find f l'
  end.

Fixpoint findIndex {A} (f : A → bool) (l : list A) : option nat :=
  match l with
  | [] => None
  | x :: l' => if f x then Some 0 else S <$> findIndex f l'
  end.

(** *** Errors and abrupt completion *)

(** An Error object: [name], [message] and the optional [status]. *)
Record jserror := JsError {
  err_name : string;
  err_message : string;
  err_status : option nat
}.

Definition TypeError (msg : string) : jserror := JsError "TypeError" msg None.

Inductive completion (A : Type) : Type :=
| Normal (a : A)
| Throw (e : jserror).
Arguments Normal {A} a.
Arguments Throw {A} e.

#[global] Instance completion_ret : MRet completion := λ A a, Normal a.

#[global] Instance completion_bind : MBind completion := λ A B k c,
  match c with
  | Normal a => k a
  | Throw e => Throw e
  end.

(** [l.filter(f)] with a callback that may throw. *)
Fixpoint filterM {A} (f : A → completion bool) (l : list A) : completion (list A) :=
  match l with
  | [] => Normal []
  | x :: l' =>
      b ← f x;
      r ← filterM f l';
      Normal (if b : bool then x :: r else r)
  end.

(** [expr.toLowerCase()] where [expr] evaluated to [v]. *)
Definition call_toLowerCase (expr : string) (v : option jsval) : completion string :=
  match v with
  | Some (JStr s) => Normal (toLowerCase s)
  | None => Throw (TypeError "Cannot read properties of undefined (reading 'toLowerCase')")
  | Some JNull => Throw (TypeError "Cannot read properties of null (reading 'toLowerCase')")
  | Some _ => Throw (TypeError (expr +:+ ".toLowerCase is not a function"))
  end.

End JS.
Import JS.

(** ** The server *)

(** *** Custom error classes *)

Definition NotFoundError (message : string) : jserror :=
  JsError "NotFoundError" message (Some 404).

Definition ValidationError (message : string) : jserror :=
  JsError "ValidationError" message (Some 400).

(** *** Requests and responses *)

Inductive method := GET | POST | PUT | DELETE.

(** A value of [req.query]: a single string, or the array or object that a
    repeated or bracketed parameter produces, kept as its [String()]
    conversion (which is what [parseInt] sees). *)
Inductive qval :=
| QString (s : string)
| QNonString (rendering : string).

(** What [bodyParser.json()] leaves: the object the callbacks read as
    [req.body] (the own properties of the parsed JSON), or the error it
    passes to [next] when the body is rejected.  A GET or DELETE without a
    JSON body is given with any body, which those routes never read; a POST
    or PUT without a JSON body is given only where the parser leaves an
    empty object there. *)
Inductive parsed_body :=
| BodyOk (body : object)
| BodyError (e : jserror).

(** [req_path] is the list of decoded, non-empty path segments. *)
Record request := Request {
  req_method : method;
  req_path : list string;
  req_api_key : option string;
  req_query : gmap string qval;
  req_body : parsed_body
}.

Inductive response :=
| ResJson (status : nat) (body : jsval)
| ResSend (status : nat) (text : string)
| ResNoRoute.

Definition status_of (r : response) : nat :=
  match r with
  | ResJson st _ | ResSend st _ => st
  | ResNoRoute => 404
  end.

Abbreviation store := (list object).

Definition obj (l : list (string * jsval)) : object := list_to_map l.

(** *** Sample products data *)

Definition laptop : object :=
  obj [("id", JStr "1"); ("name", JStr "Laptop");
       ("description", JStr "High-performance laptop with 16GB RAM");
       ("price", JNum 1200); ("category", JStr "electronics");
       ("inStock", JBool true)].

Definition smartphone : object :=
  obj [("id", JStr "2"); ("name", JStr "Smartphone");
       ("description", JStr "Latest model with 128GB storage");
       ("price", JNum 800); ("category", JStr "electronics");
       ("inStock", JBool true)].

Definition coffee_maker : object :=
  obj [("id", JStr "3"); ("name", JStr "Coffee Maker");
       ("description", JStr "Programmable coffee maker with timer");
       ("price", JNum 50); ("category", JStr "kitchen");
       ("inStock", JBool false)].

Definition products : store := [laptop; smartphone; coffee_maker].

(** *** Middleware *)

(** Auth middleware: [apiKey !== '12345']. *)
Definition auth_ok (apiKey : option string) : bool :=
  match apiKey with
  | Some k => String.eqb k "12345"
  | None => false
  end.

Definition unauthorized : response :=
  ResJson 401 (JObj (obj [("message", JStr "Unauthorized - Invalid API Key")])).

(** The condition under which [validateProduct] throws. *)
Definition missing_fields (body : object) : bool :=
  negb (truthy (body !! "name")) || negb (truthy (body !! "description")) ||
  loose_null (body !! "price") || negb (truthy (body !! "category")) ||
  loose_null (body !! "inStock").

Definition validateProduct (body : object) : completion unit :=
  if missing_fields body
  then Throw (ValidationError "Missing required product fields")
  else Normal ().

(** [{ error: err.name, message: err.message }] *)
Definition error_body (err : jserror) : jsval :=
  JObj (obj [("error", JStr (err_name err)); ("message", JStr (err_message err))]).

(** Error handler middleware: [err.status || 500]. *)
Definition errorHandler (err : jserror) : response :=
  let status :=
    match err_status err with
    | Some (S n) => S n
    | Some 0 | None => 500
    end in
  ResJson status (error_body err).

(** *** Route handlers *)

Definition get_root (ps : store) : completion (store * response) :=
  Normal (ps, ResSend 200
    "Welcome to the Product API! Go to /api/products to see all products.").

(** [req.query.search?.toLowerCase()] *)
Definition query_toLowerCase (expr : string) (v : option qval)
  : completion (option string) :=
  match v with
  | None => Normal None
  | Some (QString s) => Normal (Some (toLowerCase s))
  | Some (QNonString _) =>
      Throw (TypeError (expr +:+ "?.toLowerCase is not a function"))
  end.

Definition truthy_str (s : option string) : bool :=
  match s with
  | Some s => negb (String.eqb s "")
  | None => false
  end.

(** [parseInt(req.query.page)]; [parseInt(undefined)] is NaN. *)
Definition parseInt_query (v : option qval) : option Z :=
  match v with
  | None => None
  | Some (QString s) => parseInt s
  | Some (QNonString r) => parseInt r
  end.

(** The search callback; [||] does not evaluate the description when the
    name already matches. *)
Definition search_pred (search : string) (p : object) : completion bool :=
  name ← call_toLowerCase "p.name" (p !! "name");
  if includes name search then Normal true
  else
    description ← call_toLowerCase "p.description" (p !! "description");
    Normal (includes description search).

Definition category_pred (category : string) (p : object) : completion bool :=
  c ← call_toLowerCase "p.category" (p !! "category");
  Normal (String.eqb c category).

(** GET /api/products, the search and the category filter. *)
Definition filter_products (ps : store) (query : gmap string qval)
  : completion (list object) :=
  let result := ps in
  search ← query_toLowerCase "req.query.search" (query !! "search");
  result ← (if truthy_str search
            then filterM (search_pred (default "" search)) result
            else Normal result);
  category ← query_toLowerCase "req.query.category" (query !! "category");
  if truthy_str category
  then filterM (category_pred (default "" category)) result
  else Normal result.

(** GET /api/products, the pagination, in exact integers: the doubles of
    the source compute the same while the page, the limit, [start] and
    [end_] stay within 2^53 in size ([exact_paging] below). *)
Definition paginate (result : list object) (query : gmap string qval)
  : list object :=
  let page := num_or (parseInt_query (query !! "page")) 1 in
  let limit := num_or (parseInt_query (query !! "limit")) (Z.of_nat (length result)) in
  let start := ((page - 1) * limit)%Z in
  let end_ := (start + limit)%Z in
  slice result start end_.

(** GET /api/products *)
Definition get_products (ps : store) (query : gmap string qval)
  : completion (store * response) :=
  result ← filter_products ps query;
  let paginated := paginate result query in
  Normal (ps, ResJson 200 (JArr (JObj <$> paginated))).

Definition has_id (id : option string) (p : object) : bool :=
  strict_eq_str (p !! "id") id.

(** GET /api/products/:id *)
Definition get_product (ps : store) (id : option string)
  : completion (store * response) :=
  match find (has_id id) ps with
  | None => Throw (NotFoundError "Product not found")
  | Some product => Normal (ps, ResJson 200 (JObj product))
  end.

(** POST /api/products: [{ id: uuidv4(), ...req.body }] is the body laid
    over the object holding the generated id. *)
Definition post_product (uuid : string) (ps : store) (body : object)
  : completion (store * response) :=
  let newProduct : object := body ∪ {[ "id" := JStr uuid ]} in
  Normal (ps ++ [newProduct], ResJson 201 (JObj newProduct)).

(** PUT /api/products/:id.  ([findIndex] returns the position of a record,
    so the read at [index] finds one.) *)
Definition put_product (ps : store) (id : option string) (body : object)
  : completion (store * response) :=
  match findIndex (has_id id) ps with
  | None => Throw (NotFoundError "Product not found")
  | Some index =>
      match ps !! index with
      | None => Throw (NotFoundError "Product not found")
      | Some old =>
          let updated : object := body ∪ old in
          Normal (<[index := updated]> ps, ResJson 200 (JObj updated))
      end
  end.

(** DELETE /api/products/:id.  (As for PUT, the read at [index] finds the
    record; [splice] then removes it.) *)
Definition delete_product (ps : store) (id : option string)
  : completion (store * response) :=
  match findIndex (has_id id) ps with
  | None => Throw (NotFoundError "Product not found")
  | Some index =>
      match ps !! index with
      | None => Throw (NotFoundError "Product not found")
      | Some deleted =>
          Normal (delete index ps,
                  ResJson 200 (JObj (obj [("message", JStr "Product deleted");
                                          ("product", JObj deleted)])))
      end
  end.

(** The loop of the stats handler:
    [stats.categories[cat] = (stats.categories[cat] || 0) + 1].
    (Category names that are members of Object.prototype are outside this
    model of the [categories] object.) *)
Fixpoint count_categories (ps : store) (categories : gmap string Z)
  : completion (gmap string Z) :=
  match ps with
  | [] => Normal categories
  | product :: ps' =>
      cat ← call_toLowerCase "product.category" (product !! "category");
      count_categories ps' (<[cat := (num_or (categories !! cat) 0 + 1)%Z]> categories)
  end.

(** GET /api/products/stats *)
Definition get_stats (ps : store) : completion (store * response) :=
  categories ← count_categories ps ∅;
  Normal (ps, ResJson 200
    (JObj (obj [("totalProducts", JNum (Z.of_nat (length ps)));
                ("categories", JObj (JNum <$> categories))]))).

(** *** Routing *)

Inductive handler_id :=
| HRoot | HProducts | HProductById | HPost | HPut | HDelete | HStats.

Inductive seg := Lit (s : string) | Param (name : string).

(** One [app.METHOD(path, ...callbacks)] registration; [rt_validate] tells
    whether [validateProduct] precedes the handler. *)
Record route := Route {
  rt_method : method;
  rt_path : list seg;
  rt_validate : bool;
  rt_handler : handler_id
}.

Definition api_products : list seg := [Lit "api"; Lit "products"].

(** The routes, in the order the source registers them. *)
Definition routes : list route :=
  [ Route GET [] false HRoot;
    Route GET api_products false HProducts;
    Route GET (api_products ++ [Param "id"]) false HProductById;
    Route POST api_products true HPost;
    Route PUT (api_products ++ [Param "id"]) true HPut;
    Route DELETE (api_products ++ [Param "id"]) false HDelete;
    Route GET (api_products ++ [Lit "stats"]) false HStats ].

Definition method_eqb (a b : method) : bool :=
  match a, b with
  | GET, GET | POST, POST | PUT, PUT | DELETE, DELETE => true
  | _, _ => false
  end.

(** Path matching: literal segments compare case-insensitively (the Express
    default), a parameter takes any non-empty segment. *)
Fixpoint match_path (pat : list seg) (path : list string)
  : option (gmap string string) :=
  match pat, path with
  | [], [] => Some ∅
  | Lit s :: pat', x :: path' =>
      if String.eqb (toLowerCase x) (toLowerCase s) then match_path pat' path'
      else None
  | Param k :: pat', x :: path' =>
      if String.eqb x "" then None else <[k := x]> <$> match_path pat' path'
  | _, _ => None
  end.

(** The first registered route that matches the request. *)
Fixpoint match_route (rs : list route) (m : method) (path : list string)
  : option (route * gmap string string) :=
  match rs with
  | [] => None
  | r :: rs' =>
      if method_eqb (rt_method r) m then
        match match_path (rt_path r) path with
        | Some params => Some (r, params)
        | None => match_route rs' m path
        end
      else match_route rs' m path
  end.

Definition run_handler (h : handler_id) (uuid : string) (ps : store)
    (params : gmap string string) (query : gmap string qval) (body : object)
  : completion (store * response) :=
  match h with
  | HRoot => get_root ps
  | HProducts => get_products ps query
  | HProductById => get_product ps (params !! "id")
  | HPost => post_product uuid ps body
  | HPut => put_product ps (params !! "id") body
  | HDelete => delete_product ps (params !! "id")
  | HStats => get_stats ps
  end.

(** The layers a request passes through, recorded in order. *)
Inductive layer :=
| LBodyParser | LLogger | LAuth | LValidate | LHandler (h : handler_id)
| LErrorHandler.

(** Route dispatch for a request that passed the global middleware: the
    layers entered and how the matched callbacks completed.  No handler
    calls [next()] without an error, so at most one route runs; with no
    match Express answers 404 itself. *)
Definition dispatch (uuid : string) (ps : store) (req : request) (body : object)
  : list layer * completion (store * response) :=
  match match_route routes (req_method req) (req_path req) with
  | None => ([], Normal (ps, ResNoRoute))
  | Some (r, params) =>
      let run := run_handler (rt_handler r) uuid ps params (req_query req) body in
      if rt_validate r then
        match validateProduct body with
        | Throw e => ([LValidate], Throw e)
        | Normal _ => ([LValidate; LHandler (rt_handler r)], run)
        end
      else ([LHandler (rt_handler r)], run)
  end.

Record outcome := Outcome {
  out_store : store;
  out_response : response;
  out_trace : list layer
}.

(** One request against the application. *)
Definition app (uuid : string) (ps : store) (req : request) : outcome :=
  match req_body req with
  | BodyError e => Outcome ps (errorHandler e) [LBodyParser; LErrorHandler]
  | BodyOk body =>
      if auth_ok (req_api_key req) then
        let '(tr, c) := dispatch uuid ps req body in
        match c with
        | Normal (ps', res) => Outcome ps' res ([LBodyParser; LLogger; LAuth] ++ tr)
        | Throw e =>
            Outcome ps (errorHandler e)
              ([LBodyParser; LLogger; LAuth] ++ tr ++ [LErrorHandler])
        end
      else Outcome ps unauthorized [LBodyParser; LLogger; LAuth]
  end.

(** The stores the process can be in: the sample data, and whatever a
    request leaves. *)
Inductive reachable : store → Prop :=
| reach_init : reachable products
| reach_step uuid ps req :
    reachable ps → reachable (out_store (app uuid ps req)).

(** ** The list computation in the words of the specification

    Search, then category, then the page: a second definition to compare
    [get_products] with.  [given] tells when a search or category value
    counts as present, [usable] when a parsed page or limit is used instead
    of its default. *)

Definition contains_ci (field : option jsval) (s : string) : bool :=
  match field with
  | Some (JStr t) => includes (toLowerCase t) (toLowerCase s)
  | _ => false
  end.

Definition equals_ci (field : option jsval) (s : string) : bool :=
  match field with
  | Some (JStr t) => String.eqb (toLowerCase t) (toLowerCase s)
  | _ => false
  end.

Definition search_keeps (s : string) (p : object) : bool :=
  contains_ci (p !! "name") s || contains_ci (p !! "description") s.

Definition category_keeps (c : string) (p : object) : bool :=
  equals_ci (p !! "category") c.

Section Listing.

Variables (given : string → bool) (usable : Z → bool).

Definition keep_if (v : option qval) (keeps : string → object → bool)
    (l : list object) : list object :=
  match v with
  | Some (QString s) => if given s then List.filter (keeps s) l else l
  | _ => l
  end.

Definition number_or (v : option qval) (d : Z) : Z :=
  match parseInt_query v with
  | Some n => if usable n then n else d
  | None => d
  end.

Definition listing (ps : store) (query : gmap string qval) : list object :=
  let searched := keep_if (query !! "search") search_keeps ps in
  let filtered := keep_if (query !! "category") category_keeps searched in
  let page := number_or (query !! "page") 1 in
  let limit := number_or (query !! "limit") (Z.of_nat (length filtered)) in
  let start := ((page - 1) * limit)%Z in
  slice filtered start (start + limit).

End Listing.

(** As stated: any given value filters, any number read is used. *)
Definition listing_as_stated : store → gmap string qval → list object :=
  listing (λ _, true) (λ _, true).

(** As the code has it: an empty search or category does not filter, and a
    page or limit read as 0 falls back to its default. *)
Definition listing_as_coded : store → gmap string qval → list object :=
  listing (λ s, negb (String.eqb s "")) (λ n, negb (n =? 0)%Z).

(** The record has text in [name], [description] and [category]. *)
Definition text_record (p : object) : Prop :=
  ∃ n d c, p !! "name" = Some (JStr n) ∧ p !! "description" = Some (JStr d) ∧
           p !! "category" = Some (JStr c).

(** The query parameter is absent or a single string. *)
Definition single_valued (v : option qval) : Prop :=
  match v with
  | Some (QNonString _) => False
  | _ => True
  end.

(** ** Reading the model *)

Definition authorized (m : method) (path : list string)
    (query : list (string * qval)) (body : list (string * jsval)) : request :=
  Request m path (Some "12345") (list_to_map query) (BodyOk (obj body)).

(** The ids of the collection, as the [id] property reads on each record. *)
Definition ids (ps : store) : list (option jsval) := (λ p : object, p !! "id") <$> ps.

(** The data-model invariant: no two records carry the same id. *)
Definition unique_ids (ps : store) : Prop := NoDup (ids ps).

(** POST /api/products or PUT /api/products/:id. *)
Definition write_request (req : request) : Prop :=
  (req_method req = POST ∧ req_path req = ["api"; "products"]) ∨
  (∃ id, id ≠ "" ∧ req_method req = PUT ∧ req_path req = ["api"; "products"; id]).

Definition validation_response : response :=
  ResJson 400 (JObj (obj [("error", JStr "ValidationError");
                          ("message", JStr "Missing required product fields")])).

Definition not_found_response : response :=
  ResJson 404 (JObj (obj [("error", JStr "NotFoundError");
                          ("message", JStr "Product not found")])).

Definition stats_request : request :=
  authorized GET ["api"; "products"; "stats"] [] [].

(** The body the stats handler builds over the sample data. *)
Definition sample_stats : jsval :=
  JObj (obj [("totalProducts", JNum 3);
             ("categories",
              JObj (obj [("electronics", JNum 2); ("kitchen", JNum 1)]))]).

(** A valid product body that also carries an [id] property. *)
Definition body_with_id (id : jsval) : list (string * jsval) :=
  [("id", id); ("name", JStr "Kettle"); ("description", JStr "Electric kettle");
   ("price", JNum 30); ("category", JStr "kitchen"); ("inStock", JBool true)].

(** The record the POST below stores. *)
Definition kettle_1 : object := obj (body_with_id (JStr "1")).

Definition post_with_id_1 : request :=
  authorized POST ["api"; "products"] [] (body_with_id (JStr "1")).

Definition put_1_with_id_9 : request :=
  authorized PUT ["api"; "products"; "1"] [] (body_with_id (JStr "9")).

Definition put_price_only (id : string) : request :=
  authorized PUT ["api"; "products"; id] [] [("price", JNum 999)].

(** All five required fields, price 999, no [id]. *)
Definition full_body_999 : object :=
  obj [("name", JStr "Laptop"); ("description", JStr "Refurbished");
       ("price", JNum 999); ("category", JStr "electronics");
       ("inStock", JBool true)].

Definition root_without_key : request := Request GET [] None ∅ (BodyOk ∅).

(** A request without key whose JSON body is malformed: the body parser,
    registered before the auth middleware, hands its error to the error
    handler. *)
Definition malformed_without_key : request :=
  Request POST ["api"; "products"] None ∅
    (BodyError (JsError "SyntaxError" "Unexpected end of JSON input" (Some 400))).

Definition post_name_only : request :=
  authorized POST ["api"; "products"] [] [("name", JStr "Kettle")].

Definition list_request (query : list (string * qval)) : request :=
  authorized GET ["api"; "products"] query [].

(** A stored record as the validator leaves it: an [id] property, and the
    five required fields as [validateProduct] wants them. *)
Definition populated (p : object) : Prop :=
  is_Some (p !! "id") ∧ missing_fields p = false.

(** The category of a record, lowered, when it is text. *)
Definition lower_category (p : object) : option string :=
  match p !! "category" with
  | Some (JStr t) => Some (toLowerCase t)
  | _ => None
  end.

(** The category is text, and lowered it is not a member that the
    [categories] object inherits from Object.prototype. *)
Definition plain_category (p : object) : Prop :=
  ∃ c, lower_category p = Some c ∧ c ≠ "constructor" ∧ c ≠ "__proto__".

(** How many records have the lowered category [c]. *)
Definition in_category (c : string) (ps : store) : Z :=
  Z.of_nat (length (List.filter
    (λ p, match lower_category p with
          | Some t => String.eqb t c
          | None => false
          end) ps)).

(** A valid body whose name is a number. *)
Definition post_numeric_name : request :=
  authorized POST ["api"; "products"] []
    [("name", JNum 5); ("description", JStr "Five"); ("price", JNum 5);
     ("category", JStr "numbers"); ("inStock", JBool true)].

(** The integers a double holds exactly: up to 2^53 in size. *)
Definition double_exact (n : Z) : Prop := (Z.abs n ≤ 2 ^ 53)%Z.

(** The numbers met when a result of [n] records is paginated are all held
    exactly by doubles; there the integer arithmetic of [paginate] is the
    arithmetic of the source. *)
Definition exact_paging (n : nat) (query : gmap string qval) : Prop :=
  let page := num_or (parseInt_query (query !! "page")) 1 in
  let limit := num_or (parseInt_query (query !! "limit")) (Z.of_nat n) in
  double_exact page ∧ double_exact (page - 1) ∧ double_exact limit ∧
  double_exact ((page - 1) * limit) ∧
  double_exact ((page - 1) * limit + limit).

(** A POST with the key whose JSON body is malformed. *)
Definition malformed_with_key : request :=
  Request POST ["api"; "products"] (Some "12345") ∅
    (BodyError (JsError "SyntaxError" "Unexpected end of JSON input" (Some 400))).

(** Closes a goal [x = v] between closed terms by evaluation. *)
Ltac by_eval :=
  lazymatch goal with
  | |- ?x = _ => vm_cast_no_check (eq_refl x)
  end.

(** ** Sanity checks on concrete inputs *)

Example parseInt_examples :
  parseInt "12" = Some 12%Z ∧ parseInt "  -5px" = Some (-5)%Z ∧
  parseInt "abc" = None ∧ parseInt "" = None ∧ parseInt "0x1F" = Some 31%Z ∧
  parseInt "0" = Some 0%Z ∧ parseInt "1e3" = Some 1%Z ∧ parseInt "0x" = None.
Proof. repeat split. Qed.

Example slice_examples :
  slice [1; 2; 3] 0 1 = [1] ∧ slice [1; 2; 3] 3 6 = [] ∧
  slice [1; 2; 3] (-2) (-1) = [2] ∧ slice [1; 2; 3] 2 9 = [3].
Proof. repeat split. Qed.

Example includes_examples :
  includes "smartphone" "phone" = true ∧ includes "laptop" "phone" = false ∧
  includes "x" "" = true.
Proof. repeat split. Qed.

Example search_phone :
  out_response (app "u" products
    (authorized GET ["api"; "products"] [("search", QString "phone")] []))
  = ResJson 200 (JArr [JObj smartphone]).
Proof. by_eval. Qed.

Example electronics_page1_limit1 :
  out_response (app "u" products
    (authorized GET ["api"; "products"]
       [("category", QString "electronics"); ("page", QString "1");
        ("limit", QString "1")] []))
  = ResJson 200 (JArr [JObj laptop]).
Proof. by_eval. Qed.

Example stats_on_seed :
  get_stats products
  = Normal (products, ResJson 200
      (JObj (obj [("totalProducts", JNum 3);
                  ("categories",
                   JObj (obj [("electronics", JNum 2); ("kitchen", JNum 1)]))]))).
Proof. by_eval. Qed.

Example get_unknown_id :
  out_response (app "u" products (authorized GET ["api"; "products"; "42"] [] []))
  = ResJson 404 (error_body (NotFoundError "Product not found")).
Proof. by_eval. Qed.

(** ** Routing facts *)

Section Routing.

Lemma route_root : match_route routes GET [] = Some (Route GET [] false HRoot, ∅).
Proof. reflexivity. Qed.

Lemma route_products :
  match_route routes GET ["api"; "products"]
  = Some (Route GET api_products false HProducts, ∅).
Proof. reflexivity. Qed.

Lemma route_post :
  match_route routes POST ["api"; "products"]
  = Some (Route POST api_products true HPost, ∅).
Proof. reflexivity. Qed.

Variable id : string.
Hypothesis id_nonempty : id ≠ "".

Lemma eqb_id_empty : String.eqb id "" = false.
Proof using id_nonempty. by apply String.eqb_neq. Qed.

Lemma route_product_by_id :
  match_route routes GET ["api"; "products"; id]
  = Some (Route GET (api_products ++ [Param "id"]) false HProductById,
          {[ "id" := id ]}).
Proof using id_nonempty.
  cbn -[String.eqb insert empty]. by rewrite eqb_id_empty.
Qed.

Lemma route_put :
  match_route routes PUT ["api"; "products"; id]
  = Some (Route PUT (api_products ++ [Param "id"]) true HPut, {[ "id" := id ]}).
Proof using id_nonempty.
  cbn -[String.eqb insert empty]. by rewrite eqb_id_empty.
Qed.

Lemma route_delete :
  match_route routes DELETE ["api"; "products"; id]
  = Some (Route DELETE (api_products ++ [Param "id"]) false HDelete,
          {[ "id" := id ]}).
Proof using id_nonempty.
  cbn -[String.eqb insert empty]. by rewrite eqb_id_empty.
Qed.

End Routing.

Lemma param_id (id : string) :
  ({[ "id" := id ]} : gmap string string) !! "id" = Some id.
Proof. apply lookup_singleton_eq. Qed.

(** ** The pipeline *)

Lemma auth_ok_iff (k : option string) : auth_ok k = true ↔ k = Some "12345".
Proof.
  destruct k as [k|]; simpl; [|split; discriminate].
  rewrite String.eqb_eq. split; [by intros ->|by intros [= ->]].
Qed.

Lemma auth_ok_false (k : option string) : k ≠ Some "12345" → auth_ok k = false.
Proof.
  intros Hk. destruct (auth_ok k) eqn:E; [|done].
  by apply auth_ok_iff in E.
Qed.

(** An authorized request with a parsed body is answered by the dispatcher,
    or by the error handler when the dispatcher throws. *)
Lemma app_authorized uuid ps req body :
  req_body req = BodyOk body →
  req_api_key req = Some "12345" →
  app uuid ps req =
    match dispatch uuid ps req body with
    | (tr, Normal (ps', res)) => Outcome ps' res ([LBodyParser; LLogger; LAuth] ++ tr)
    | (tr, Throw e) =>
        Outcome ps (errorHandler e) ([LBodyParser; LLogger; LAuth] ++ tr ++ [LErrorHandler])
    end.
Proof.
  intros Hb Hk. unfold app. rewrite Hb, Hk. simpl.
  by destruct (dispatch uuid ps req body) as [tr [[ps' res]|e]].
Qed.

Lemma dispatch_routed uuid ps req body r params :
  match_route routes (req_method req) (req_path req) = Some (r, params) →
  dispatch uuid ps req body =
    let run := run_handler (rt_handler r) uuid ps params (req_query req) body in
    if rt_validate r then
      match validateProduct body with
      | Throw e => ([LValidate], Throw e)
      | Normal _ => ([LValidate; LHandler (rt_handler r)], run)
      end
    else ([LHandler (rt_handler r)], run).
Proof. intros H. unfold dispatch. by rewrite H. Qed.

(** Every unauthorized request leaves the store alone and reaches no route
    callback, whatever the body parser made of the body. *)
Lemma unauthorized_no_effect uuid ps req :
  req_api_key req ≠ Some "12345" →
  out_store (app uuid ps req) = ps ∧
  ∀ l, l ∈ out_trace (app uuid ps req) →
       l = LBodyParser ∨ l = LLogger ∨ l = LAuth ∨ l = LErrorHandler.
Proof.
  intros Hk. unfold app. destruct (req_body req) as [body|e]; simpl.
  - rewrite (auth_ok_false _ Hk). simpl. split; [done|].
    intros l. rewrite !elem_of_cons, elem_of_nil. tauto.
  - split; [done|]. intros l. rewrite !elem_of_cons, elem_of_nil. tauto.
Qed.

(** C7 (as amended): a request whose x-api-key header is missing or is not
    "12345", and whose body the JSON body parser did not reject, is answered
    401 with body {message: "Unauthorized - Invalid API Key"} on every method
    and path; only the body parser, the logger and the auth middleware ran,
    so no route callback did, and the store is unchanged. *)
Theorem unauthorized_is_401 uuid ps req body :
  req_body req = BodyOk body →
  req_api_key req ≠ Some "12345" →
  app uuid ps req =
    Outcome ps
      (ResJson 401 (JObj (obj [("message", JStr "Unauthorized - Invalid API Key")])))
      [LBodyParser; LLogger; LAuth].
Proof.
  intros Hb Hk. unfold app. rewrite Hb, (auth_ok_false _ Hk). reflexivity.
Qed.

Lemma unauthorized_is_401_witness :
  app "u" products root_without_key =
    Outcome products
      (ResJson 401 (JObj (obj [("message", JStr "Unauthorized - Invalid API Key")])))
      [LBodyParser; LLogger; LAuth].
Proof.
  apply (unauthorized_is_401 "u" products root_without_key ∅); [reflexivity|discriminate].
Defined.

(** C7 as stated fails: this request carries no x-api-key and is answered
    400 by the error handler, not 401. *)
Lemma unauthorized_malformed_body_is_400 :
  req_api_key malformed_without_key ≠ Some "12345" ∧
  out_response (app "u" products malformed_without_key)
    = ResJson 400 (JObj (obj [("error", JStr "SyntaxError");
                              ("message", JStr "Unexpected end of JSON input")])) ∧
  status_of (out_response (app "u" products malformed_without_key)) ≠ 401.
Proof. split; [discriminate|]. split; [reflexivity|]. simpl. lia. Qed.

(** ** Errors thrown by the route callbacks *)

Lemma bind_throw {A B} (c : completion A) (k : A → completion B) e :
  c ≫= k = Throw e → c = Throw e ∨ ∃ a, c = Normal a ∧ k a = Throw e.
Proof.
  destruct c as [a|e']; intros H.
  - right. exists a. split; [reflexivity | exact H].
  - left. injection H as ->. reflexivity.
Qed.

Lemma call_toLowerCase_throw expr v e :
  call_toLowerCase expr v = Throw e → err_status e = None.
Proof. destruct v as [[]|]; simpl; intros [= <-]; done. Qed.

Lemma query_toLowerCase_throw expr v e :
  query_toLowerCase expr v = Throw e → err_status e = None.
Proof. destruct v as [[]|]; simpl; intros [= <-]; done. Qed.

Lemma filterM_throw {A} (f : A → completion bool) (P : jserror → Prop) l e :
  (∀ x e, f x = Throw e → P e) → filterM f l = Throw e → P e.
Proof.
  intros Hf. induction l as [|x l IH]; simpl; [done|].
  intros [H|(b & _ & H)]%bind_throw; [by eapply Hf|].
  apply bind_throw in H as [H|(r & _ & H)]; [auto | discriminate H].
Qed.

Lemma search_pred_throw search p e :
  search_pred search p = Throw e → err_status e = None.
Proof.
  unfold search_pred.
  intros [H|(name & _ & H)]%bind_throw; [by eapply call_toLowerCase_throw|].
  destruct (includes name search); [done|].
  apply bind_throw in H as [H|(d & _ & H)];
    [by eapply call_toLowerCase_throw | discriminate H].
Qed.

Lemma category_pred_throw category p e :
  category_pred category p = Throw e → err_status e = None.
Proof.
  unfold category_pred.
  intros [H|(c & _ & H)]%bind_throw;
    [by eapply call_toLowerCase_throw | discriminate H].
Qed.

Lemma filter_products_throw ps query e :
  filter_products ps query = Throw e → err_status e = None.
Proof.
  unfold filter_products.
  intros [H|(search & _ & H)]%bind_throw; [by eapply query_toLowerCase_throw|].
  apply bind_throw in H as [H|(result & _ & H)].
  - destruct (truthy_str search); [|done].
    eapply (filterM_throw _ (λ e, err_status e = None)); [|exact H].
    intros x e'. apply search_pred_throw.
  - apply bind_throw in H as [H|(category & _ & H)];
      [by eapply query_toLowerCase_throw|].
    destruct (truthy_str category); [|done].
    eapply (filterM_throw _ (λ e, err_status e = None)); [|exact H].
    intros x e'. apply category_pred_throw.
Qed.

Lemma count_categories_throw ps categories e :
  count_categories ps categories = Throw e → err_status e = None.
Proof.
  revert categories. induction ps as [|p ps IH]; intros categories; simpl; [done|].
  intros [H|(cat & _ & H)]%bind_throw; [by eapply call_toLowerCase_throw | eauto].
Qed.

(** A route handler throws NotFoundError("Product not found") or an error
    without a status (a TypeError of the runtime). *)
Lemma run_handler_throw h uuid ps params query body e :
  run_handler h uuid ps params query body = Throw e →
  e = NotFoundError "Product not found" ∨ err_status e = None.
Proof.
  destruct h; simpl.
  - done.
  - unfold get_products.
    intros [H|(r & _ & H)]%bind_throw;
      [right; by eapply filter_products_throw | discriminate H].
  - unfold get_product. destruct (find _ _); [done | intros [= <-]; by left].
  - done.
  - unfold put_product. destruct (findIndex _ _) as [i|]; [|intros [= <-]; by left].
    destruct (ps !! i); [done | intros [= <-]; by left].
  - unfold delete_product. destruct (findIndex _ _) as [i|]; [|intros [= <-]; by left].
    destruct (ps !! i); [done | intros [= <-]; by left].
  - unfold get_stats.
    intros [H|(r & _ & H)]%bind_throw;
      [right; by eapply count_categories_throw | discriminate H].
Qed.

Lemma dispatch_throw uuid ps req body e :
  (dispatch uuid ps req body).2 = Throw e →
  e = ValidationError "Missing required product fields" ∨
  e = NotFoundError "Product not found" ∨ err_status e = None.
Proof.
  unfold dispatch.
  destruct (match_route _ _ _) as [[r params]|]; [|done].
  destruct (rt_validate r).
  - unfold validateProduct. destruct (missing_fields body); simpl.
    + intros [= <-]. by left.
    + intros H. right. by eapply run_handler_throw.
  - simpl. intros H. right. by eapply run_handler_throw.
Qed.

Lemma errorHandler_no_status e :
  err_status e = None → errorHandler e = ResJson 500 (error_body e).
Proof. unfold errorHandler. by intros ->. Qed.

(** C9: an error thrown by the callbacks of the matched route reaches the
    error handler, which alone produces the response (the store is as it
    was, the handler is the last layer entered).  A ValidationError is
    answered 400 and a NotFoundError 404, with body {error: <name>, message:
    <message>}; the only other errors the callbacks throw carry no status
    and are answered 500 with the same body shape, [error] being the error's
    own name. *)
Theorem thrown_errors_mapped uuid ps req body e :
  req_body req = BodyOk body →
  req_api_key req = Some "12345" →
  (dispatch uuid ps req body).2 = Throw e →
  out_response (app uuid ps req) = errorHandler e ∧
  out_store (app uuid ps req) = ps ∧
  last (out_trace (app uuid ps req)) = Some LErrorHandler ∧
  (e = ValidationError "Missing required product fields" ∨
   e = NotFoundError "Product not found" ∨
   err_status e = None ∧
   errorHandler e = ResJson 500
     (JObj (obj [("error", JStr (err_name e)); ("message", JStr (err_message e))]))) ∧
  (∀ message,
     errorHandler (ValidationError message) = ResJson 400
       (JObj (obj [("error", JStr "ValidationError"); ("message", JStr message)]))) ∧
  (∀ message,
     errorHandler (NotFoundError message) = ResJson 404
       (JObj (obj [("error", JStr "NotFoundError"); ("message", JStr message)]))).
Proof.
  intros Hb Hk He.
  rewrite (app_authorized _ _ _ _ Hb Hk).
  destruct (dispatch uuid ps req body) as [tr c] eqn:Hd. simpl in He. subst c.
  simpl. repeat split.
  - by rewrite app_comm_cons, !last_snoc.
  - pose proof (dispatch_throw uuid ps req body e) as H.
    rewrite Hd in H. destruct (H eq_refl) as [->|[->|Hs]]; [by left | by right; left |].
    right; right. split; [done|]. by apply errorHandler_no_status.
Qed.

Lemma thrown_errors_mapped_witness :
  out_response (app "u" products (authorized GET ["api"; "products"; "42"] [] []))
    = errorHandler (NotFoundError "Product not found").
Proof.
  apply (thrown_errors_mapped "u" products
           (authorized GET ["api"; "products"; "42"] [] []) ∅
           (NotFoundError "Product not found")); reflexivity.
Defined.

(** ** Validation *)

Lemma missing_fields_iff (body : object) :
  missing_fields body = true ↔
    truthy (body !! "name") = false ∨ truthy (body !! "description") = false ∨
    loose_null (body !! "price") = true ∨ truthy (body !! "category") = false ∨
    loose_null (body !! "inStock") = true.
Proof.
  unfold missing_fields. rewrite !orb_true_iff, !negb_true_iff. tauto.
Qed.

(** What a write request does once it is authorized: the validator first,
    and the handler only for a body that passes. *)
Lemma write_dispatch uuid ps req body :
  write_request req →
  dispatch uuid ps req body =
    if missing_fields body
    then ([LValidate], Throw (ValidationError "Missing required product fields"))
    else match req_method req with
         | POST => ([LValidate; LHandler HPost], post_product uuid ps body)
         | _ => ([LValidate; LHandler HPut],
                 put_product ps (req_path req !! 2) body)
         end.
Proof.
  intros [[Hm Hp]|(id & Hid & Hm & Hp)].
  - erewrite dispatch_routed; [|rewrite Hm, Hp; apply route_post].
    simpl. unfold validateProduct. rewrite Hm. by destruct (missing_fields body).
  - erewrite dispatch_routed; [|rewrite Hm, Hp; by apply route_put].
    simpl. unfold validateProduct. rewrite Hm, Hp, param_id.
    by destruct (missing_fields body).
Qed.

Lemma put_product_response ps id body :
  ∃ st b, (match put_product ps id body with
           | Normal (_, res) => res
           | Throw e => errorHandler e
           end) = ResJson st b ∧ st ≠ 400.
Proof.
  unfold put_product. destruct (findIndex _ _) as [i|]; [destruct (ps !! i)|]; simpl;
    do 2 eexists; (split; [reflexivity | unfold NotFoundError; simpl; lia]).
Qed.

(** C5 as stated fails: an authorized POST /api/products whose JSON body is
    malformed carries none of the five fields, yet it is answered 400 with
    error "SyntaxError" by the error handler, straight from the body
    parser, and not with the ValidationError. *)
Lemma malformed_write_is_not_validation_error :
  req_api_key malformed_with_key = Some "12345" ∧
  req_method malformed_with_key = POST ∧
  req_path malformed_with_key = ["api"; "products"] ∧
  app "u" products malformed_with_key
    = Outcome products
        (ResJson 400 (JObj (obj [("error", JStr "SyntaxError");
                                 ("message", JStr "Unexpected end of JSON input")])))
        [LBodyParser; LErrorHandler] ∧
  out_response (app "u" products malformed_with_key) ≠ validation_response.
Proof.
  assert (H : app "u" products malformed_with_key
              = Outcome products
                  (ResJson 400
                     (JObj (obj [("error", JStr "SyntaxError");
                                 ("message", JStr "Unexpected end of JSON input")])))
                  [LBodyParser; LErrorHandler]) by reflexivity.
  repeat split; try reflexivity.
  set (error_of := λ r : response,
         match r with
         | ResJson _ (JObj o) => o !! "error"
         | _ => None
         end).
  assert (E1 : error_of (out_response (app "u" products malformed_with_key))
               = Some (JStr "SyntaxError")) by by_eval.
  assert (E2 : error_of validation_response = Some (JStr "ValidationError"))
    by by_eval.
  intros E. rewrite E, E2 in E1. discriminate E1.
Qed.

(** C5 (as amended): an authorized POST /api/products or PUT
    /api/products/:id whose body the JSON parser accepted is answered 400
    {error: "ValidationError", message: "Missing required product fields"}
    exactly when one of name, description, category is falsy or one of
    price, inStock is null or undefined; in that case the store is
    unchanged and no handler ran.  A body with price 0 and inStock false,
    the other three truthy, passes. *)
Theorem validation_gate uuid ps req body :
  req_body req = BodyOk body →
  req_api_key req = Some "12345" →
  write_request req →
  (out_response (app uuid ps req) = validation_response ↔
     truthy (body !! "name") = false ∨ truthy (body !! "description") = false ∨
     loose_null (body !! "price") = true ∨ truthy (body !! "category") = false ∨
     loose_null (body !! "inStock") = true) ∧
  (out_response (app uuid ps req) = validation_response →
     out_store (app uuid ps req) = ps ∧
     out_trace (app uuid ps req)
       = [LBodyParser; LLogger; LAuth; LValidate; LErrorHandler]) ∧
  (truthy (body !! "name") = true → truthy (body !! "description") = true →
   truthy (body !! "category") = true →
   body !! "price" = Some (JNum 0) → body !! "inStock" = Some (JBool false) →
   out_response (app uuid ps req) ≠ validation_response).
Proof.
  intros Hb Hk Hw.
  assert (Hiff : out_response (app uuid ps req) = validation_response ↔
                 missing_fields body = true).
  { rewrite (app_authorized _ _ _ _ Hb Hk), (write_dispatch _ _ _ _ Hw).
    destruct (missing_fields body); simpl; [done|].
    split; [|done]. intros H. exfalso.
    destruct (req_method req); simpl in H;
      try (destruct (put_product_response ps (req_path req !! 2) body)
             as (st & b & Hr & Hst);
           destruct (put_product ps (req_path req !! 2) body) as [[ps' res]|e];
           simpl in *; rewrite Hr in H; injection H as H _; lia).
    discriminate H. }
  split; [by rewrite Hiff, missing_fields_iff|]. split.
  - intros H%Hiff.
    rewrite (app_authorized _ _ _ _ Hb Hk), (write_dispatch _ _ _ _ Hw), H. done.
  - intros Hn Hd Hc Hp Hi. rewrite Hiff, missing_fields_iff.
    rewrite Hn, Hd, Hc, Hp, Hi. simpl. intros [|[|[|[|]]]]; discriminate.
Qed.

Lemma validation_gate_witness :
  out_response (app "u" products post_name_only) = validation_response ∧
  out_store (app "u" products post_name_only) = products.
Proof.
  assert (H : out_response (app "u" products post_name_only) = validation_response).
  { apply (validation_gate "u" products post_name_only (obj [("name", JStr "Kettle")]));
      [reflexivity | reflexivity | left; split; reflexivity | right; left; by_eval]. }
  split; [exact H|].
  apply (validation_gate "u" products post_name_only (obj [("name", JStr "Kettle")]));
    [reflexivity | reflexivity | left; split; reflexivity | exact H].
Defined.

(** ** What each route answers *)

Section Outcomes.

Variables (uuid : string) (ps : store) (query : gmap string qval) (body : object).

Lemma get_products_outcome :
  app uuid ps (Request GET ["api"; "products"] (Some "12345") query (BodyOk body)) =
    match filter_products ps query with
    | Normal result =>
        Outcome ps (ResJson 200 (JArr (JObj <$> paginate result query)))
          [LBodyParser; LLogger; LAuth; LHandler HProducts]
    | Throw e =>
        Outcome ps (errorHandler e)
          [LBodyParser; LLogger; LAuth; LHandler HProducts; LErrorHandler]
    end.
Proof.
  rewrite (app_authorized _ _ _ body) by reflexivity.
  rewrite (dispatch_routed _ _ (Request GET _ (Some "12345") query (BodyOk body))
             _ _ _ route_products).
  simpl. unfold get_products. by destruct (filter_products ps query).
Qed.

Lemma post_product_outcome :
  app uuid ps (Request POST ["api"; "products"] (Some "12345") query (BodyOk body)) =
    if missing_fields body
    then Outcome ps validation_response
           [LBodyParser; LLogger; LAuth; LValidate; LErrorHandler]
    else Outcome (ps ++ [body ∪ {[ "id" := JStr uuid ]}])
           (ResJson 201 (JObj (body ∪ {[ "id" := JStr uuid ]})))
           [LBodyParser; LLogger; LAuth; LValidate; LHandler HPost].
Proof.
  rewrite (app_authorized _ _ _ body) by reflexivity.
  rewrite (dispatch_routed _ _ (Request POST _ (Some "12345") query (BodyOk body))
             _ _ _ route_post).
  simpl. unfold validateProduct. by destruct (missing_fields body).
Qed.

Variable id : string.
Hypothesis id_nonempty : id ≠ "".

Lemma get_product_outcome :
  app uuid ps (Request GET ["api"; "products"; id] (Some "12345") query (BodyOk body)) =
    match find (has_id (Some id)) ps with
    | Some product =>
        Outcome ps (ResJson 200 (JObj product))
          [LBodyParser; LLogger; LAuth; LHandler HProductById]
    | None =>
        Outcome ps not_found_response
          [LBodyParser; LLogger; LAuth; LHandler HProductById; LErrorHandler]
    end.
Proof using id_nonempty.
  rewrite (app_authorized _ _ _ body) by reflexivity.
  rewrite (dispatch_routed _ _ (Request GET _ (Some "12345") query (BodyOk body))
             _ _ _ (route_product_by_id id id_nonempty)).
  cbn [rt_validate rt_handler run_handler]. unfold get_product. rewrite param_id.
  by destruct (find _ ps).
Qed.

Lemma put_product_outcome :
  app uuid ps (Request PUT ["api"; "products"; id] (Some "12345") query (BodyOk body)) =
    if missing_fields body
    then Outcome ps validation_response
           [LBodyParser; LLogger; LAuth; LValidate; LErrorHandler]
    else match findIndex (has_id (Some id)) ps ≫= λ index, pair index <$> ps !! index with
         | Some (index, old) =>
             Outcome (<[index := body ∪ old]> ps) (ResJson 200 (JObj (body ∪ old)))
               [LBodyParser; LLogger; LAuth; LValidate; LHandler HPut]
         | None =>
             Outcome ps not_found_response
               [LBodyParser; LLogger; LAuth; LValidate; LHandler HPut; LErrorHandler]
         end.
Proof using id_nonempty.
  rewrite (app_authorized _ _ _ body) by reflexivity.
  rewrite (dispatch_routed _ _ (Request PUT _ (Some "12345") query (BodyOk body))
             _ _ _ (route_put id id_nonempty)).
  cbn [rt_validate rt_handler run_handler]. unfold validateProduct, put_product.
  rewrite param_id. destruct (missing_fields body); [done|].
  destruct (findIndex _ ps) as [index|]; [|done]. simpl.
  by destruct (ps !! index).
Qed.

Lemma delete_product_outcome :
  app uuid ps (Request DELETE ["api"; "products"; id] (Some "12345") query (BodyOk body)) =
    match findIndex (has_id (Some id)) ps ≫= λ index, pair index <$> ps !! index with
    | Some (index, deleted) =>
        Outcome (delete index ps)
          (ResJson 200 (JObj (obj [("message", JStr "Product deleted");
                                   ("product", JObj deleted)])))
          [LBodyParser; LLogger; LAuth; LHandler HDelete]
    | None =>
        Outcome ps not_found_response
          [LBodyParser; LLogger; LAuth; LHandler HDelete; LErrorHandler]
    end.
Proof using id_nonempty.
  rewrite (app_authorized _ _ _ body) by reflexivity.
  rewrite (dispatch_routed _ _ (Request DELETE _ (Some "12345") query (BodyOk body))
             _ _ _ (route_delete id id_nonempty)).
  cbn [rt_validate rt_handler run_handler]. unfold delete_product.
  rewrite param_id.
  destruct (findIndex _ ps) as [index|]; [|done]. simpl.
  by destruct (ps !! index).
Qed.

End Outcomes.

(** ** Route order *)

(** C1 fails on the code: GET /api/products/stats is taken by the route
    /api/products/:id, registered earlier, with id = "stats".  The stats
    handler never runs; the answer is that of the lookup of a product whose
    id is "stats", which over the sample data is 404 NotFoundError and not
    the statistics. *)
Theorem stats_route_shadowed :
  match_route routes GET ["api"; "products"; "stats"]
    = Some (Route GET (api_products ++ [Param "id"]) false HProductById,
            {[ "id" := "stats" ]}) ∧
  (∀ uuid ps query body,
     let out := app uuid ps
       (Request GET ["api"; "products"; "stats"] (Some "12345") query (BodyOk body)) in
     (LHandler HStats ∉ out_trace out) ∧
     out_response out =
       match find (has_id (Some "stats")) ps with
       | Some product => ResJson 200 (JObj product)
       | None => not_found_response
       end) ∧
  app "u" products stats_request
    = Outcome products not_found_response
        [LBodyParser; LLogger; LAuth; LHandler HProductById; LErrorHandler] ∧
  get_stats products = Normal (products, ResJson 200 sample_stats).
Proof.
  split; [reflexivity|]. split; [|split; by_eval].
  intros uuid ps query body out. subst out.
  rewrite get_product_outcome by discriminate.
  destruct (find _ ps); simpl; (split; [|reflexivity]);
    rewrite !elem_of_cons, elem_of_nil; intros H;
    repeat (destruct H as [H|H]; [discriminate H|]); done.
Qed.

(** ** Ids under POST and PUT *)

(** C3 fails on the code: the body is spread over the generated id (POST)
    and over the stored record (PUT), so an [id] property of the body wins.
    From the sample data, one POST whose body has id "1" reaches a store
    with two records of id "1", and one PUT on /api/products/1 whose body
    has id "9" changes the id of the stored record. *)
Theorem body_id_overrides :
  reachable (out_store (app "u" products post_with_id_1)) ∧
  ids (out_store (app "u" products post_with_id_1))
    = [Some (JStr "1"); Some (JStr "2"); Some (JStr "3"); Some (JStr "1")] ∧
  ¬ unique_ids (out_store (app "u" products post_with_id_1)) ∧
  reachable (out_store (app "u" products put_1_with_id_9)) ∧
  ids products = [Some (JStr "1"); Some (JStr "2"); Some (JStr "3")] ∧
  ids (out_store (app "u" products put_1_with_id_9))
    = [Some (JStr "9"); Some (JStr "2"); Some (JStr "3")].
Proof.
  assert (H1 : ids (out_store (app "u" products post_with_id_1))
               = [Some (JStr "1"); Some (JStr "2"); Some (JStr "3"); Some (JStr "1")])
    by by_eval.
  split; [apply reach_step, reach_init|]. split; [exact H1|]. split.
  - unfold unique_ids. rewrite H1. intros [Hn _]%NoDup_cons. apply Hn.
    right. right. left.
  - split; [apply reach_step, reach_init|]. split; by_eval.
Qed.

(** C6 fails on the code, by the same spread as C3: the POST below passes
    validation and is answered 201, but the stored record carries the id
    "1" of the body, not the generated one; that id is already in the
    store, and the following GET /api/products/1 returns the older record. *)
Theorem post_keeps_body_id :
  let out := app "generated" products post_with_id_1 in
  let created : object := obj (body_with_id (JStr "1")) in
  out_response out = ResJson 201 (JObj created) ∧
  out_store out = products ++ [created] ∧
  created !! "id" = Some (JStr "1") ∧
  created !! "id" ∈ ids products ∧
  laptop ≠ created ∧
  out_response (app "u" (out_store out)
                  (authorized GET ["api"; "products"; "1"] [] []))
    = ResJson 200 (JObj laptop).
Proof.
  cbv zeta. split; [by_eval|]. split; [by_eval|]. split; [by_eval|]. split.
  - replace (ids products) with [Some (JStr "1"); Some (JStr "2"); Some (JStr "3")]
      by (symmetry; by_eval).
    replace (obj (body_with_id (JStr "1")) !! "id") with (Some (JStr "1"))
      by (symmetry; by_eval).
    left.
  - split; [|by_eval].
    intros H. apply (f_equal (λ m : object, m !! "price")) in H.
    revert H.
    replace (obj (body_with_id (JStr "1")) !! "price") with (Some (JNum 30))
      by (symmetry; by_eval).
    match goal with |- ?x = _ → _ =>
      replace x with (Some (JNum 1200)) by (symmetry; by_eval) end.
    discriminate.
Qed.

(** ** Looking records up by id *)

Lemma has_id_true id (p : object) :
  has_id (Some id) p = true ↔ p !! "id" = Some (JStr id).
Proof.
  unfold has_id, strict_eq_str.
  destruct (p !! "id") as [[| | |t| |]|]; try (split; discriminate).
  rewrite String.eqb_eq. split; [by intros -> | by intros [= ->]].
Qed.

Lemma has_id_false id (p : object) :
  has_id (Some id) p = false ↔ p !! "id" ≠ Some (JStr id).
Proof. rewrite <- has_id_true. by destruct (has_id (Some id) p). Qed.

Lemma findIndex_None {A} (f : A → bool) (l : list A) :
  findIndex f l = None ↔ ∀ x, x ∈ l → f x = false.
Proof.
  induction l as [|x l IH]; simpl.
  - split; [|done]. intros _ y Hy. by apply elem_of_nil in Hy.
  - destruct (f x) eqn:Hx.
    + split; [done|]. intros H. rewrite H in Hx; [done | left].
    + rewrite fmap_None, IH. split.
      * intros H y [->|Hy]%elem_of_cons; auto.
      * intros H y Hy. apply H. by right.
Qed.

Lemma findIndex_Some {A} (f : A → bool) (l : list A) i :
  findIndex f l = Some i →
  (∃ x, l !! i = Some x ∧ f x = true) ∧
  ∀ j y, j < i → l !! j = Some y → f y = false.
Proof.
  revert i. induction l as [|x l IH]; intros i; simpl; [done|].
  destruct (f x) eqn:Hx.
  - intros [= <-]. split; [by exists x | intros j y Hj; lia].
  - intros (i' & Hi' & ->)%fmap_Some. destruct (IH _ Hi') as [Hex Hlt].
    split; [exact Hex|]. intros [|j] y Hj; simpl.
    + by intros [= <-].
    + apply Hlt. lia.
Qed.

Lemma find_findIndex {A} (f : A → bool) (l : list A) :
  find f l = findIndex f l ≫= λ i, l !! i.
Proof.
  induction l as [|x l IH]; simpl; [done|].
  destruct (f x); [done|]. rewrite IH. by destruct (findIndex f l).
Qed.

Lemma ids_lookup (ps : store) i (p : object) :
  ps !! i = Some p → ids ps !! i = Some (p !! "id").
Proof. intros H. unfold ids. by rewrite list_lookup_fmap, H. Qed.

(** With pairwise distinct ids, the scan for the id of a stored record
    stops at that record. *)
Lemma findIndex_unique (ps : store) (p : object) id :
  unique_ids ps → p ∈ ps → p !! "id" = Some (JStr id) →
  ∃ i, ps !! i = Some p ∧ findIndex (has_id (Some id)) ps = Some i.
Proof.
  intros Hu [j Hj]%list_elem_of_lookup Hid.
  destruct (findIndex (has_id (Some id)) ps) as [i|] eqn:Hf.
  - destruct (findIndex_Some _ _ _ Hf) as [(q & Hq & Hqid%has_id_true) _].
    assert (i = j) as ->.
    { eapply NoDup_lookup; [exact Hu | |].
      - erewrite ids_lookup by exact Hq. by rewrite Hqid.
      - erewrite ids_lookup by exact Hj. by rewrite Hid. }
    by exists j.
  - rewrite findIndex_None in Hf. apply has_id_true in Hid.
    rewrite Hf in Hid; [done|]. by eapply list_elem_of_lookup_2.
Qed.

Lemma findIndex_absent (ps : store) id :
  (∀ p : object, p ∈ ps → p !! "id" ≠ Some (JStr id)) →
  findIndex (has_id (Some id)) ps = None.
Proof. intros H. apply findIndex_None. intros p Hp. apply has_id_false. auto. Qed.

(** With pairwise distinct ids, removing a record removes its id. *)
Lemma delete_removes_id (ps : store) i (p : object) id :
  unique_ids ps → ps !! i = Some p → p !! "id" = Some (JStr id) →
  ∀ q : object, q ∈ delete i ps → q !! "id" ≠ Some (JStr id).
Proof.
  intros Hu Hi Hid q [k Hk]%list_elem_of_lookup Hq.
  assert (∃ k', k' ≠ i ∧ ps !! k' = Some q) as (k' & Hne & Hk').
  { destruct (decide (k < i)).
    - exists k. split; [lia|]. by rewrite list_lookup_delete_lt in Hk.
    - exists (S k). split; [lia|]. by rewrite list_lookup_delete_ge in Hk by lia. }
  apply Hne. eapply NoDup_lookup; [exact Hu | |].
  - erewrite ids_lookup by exact Hk'. by rewrite Hq.
  - erewrite ids_lookup by exact Hi. by rewrite Hid.
Qed.

Lemma unique_ids_products : unique_ids products.
Proof.
  unfold unique_ids.
  replace (ids products) with [Some (JStr "1"); Some (JStr "2"); Some (JStr "3")]
    by (symmetry; by_eval).
  repeat (apply NoDup_cons_2;
          [rewrite ?elem_of_cons, elem_of_nil; intros H;
           repeat (destruct H as [H|H]; [discriminate H|]); exact H|]).
  apply NoDup_nil_2.
Qed.

(** ** DELETE *)

(** C8 fails on the code, through the defect of C3 and C6: one POST whose
    body has id "1" leaves two records with that id.  DELETE
    /api/products/1 then removes the first of them, so for the second one,
    present in the store, the record removed and returned is another one,
    and the following GET /api/products/1 is answered 200, not 404. *)
Theorem delete_under_duplicate_ids :
  let ps := out_store (app "u" products post_with_id_1) in
  let out := app "u" ps (authorized DELETE ["api"; "products"; "1"] [] []) in
  reachable ps ∧
  ps = [laptop; smartphone; coffee_maker; kettle_1] ∧
  kettle_1 !! "id" = Some (JStr "1") ∧
  out_response out
    = ResJson 200 (JObj (obj [("message", JStr "Product deleted");
                              ("product", JObj laptop)])) ∧
  out_store out = [smartphone; coffee_maker; kettle_1] ∧
  out_response (app "u" (out_store out)
                  (authorized GET ["api"; "products"; "1"] [] []))
    = ResJson 200 (JObj kettle_1).
Proof.
  cbv zeta. split; [apply reach_step, reach_init|]. repeat split; by_eval.
Qed.

(** X18: over a store whose ids are pairwise distinct, an
    authorized DELETE /api/products/:id on the id of a stored product
    answers 200 with {message: "Product deleted", product: <that record>},
    leaves the store with exactly that record removed, and a following GET
    of the same id is answered 404; on an id no record carries it answers
    404 and leaves the store as it was. *)
Theorem delete_removes_product uuid (ps : store) query body id :
  id ≠ "" →
  unique_ids ps →
  let out := app uuid ps
    (Request DELETE ["api"; "products"; id] (Some "12345") query (BodyOk body)) in
  (∀ p : object, p ∈ ps → p !! "id" = Some (JStr id) →
     out_response out
       = ResJson 200 (JObj (obj [("message", JStr "Product deleted");
                                 ("product", JObj p)])) ∧
     (∃ i, ps !! i = Some p ∧ out_store out = delete i ps) ∧
     (∀ uuid' query' body',
        out_response (app uuid' (out_store out)
          (Request GET ["api"; "products"; id] (Some "12345") query' (BodyOk body')))
        = not_found_response)) ∧
  ((∀ p : object, p ∈ ps → p !! "id" ≠ Some (JStr id)) →
     out_response out = not_found_response ∧ out_store out = ps).
Proof.
  intros Hid Hu out. subst out. rewrite delete_product_outcome by done. split.
  - intros p Hp Hpid.
    destruct (findIndex_unique ps p id Hu Hp Hpid) as (i & Hi & Hf).
    rewrite Hf. simpl. rewrite Hi. simpl. split; [done|]. split; [by exists i|].
    intros uuid' query' body'. rewrite get_product_outcome by done.
    rewrite find_findIndex, findIndex_absent; [done|].
    by eapply delete_removes_id.
  - intros Habs. by rewrite findIndex_absent.
Qed.

Lemma delete_removes_product_witness :
  let out := app "u" products
    (Request DELETE ["api"; "products"; "2"] (Some "12345") ∅ (BodyOk ∅)) in
  out_response out
    = ResJson 200 (JObj (obj [("message", JStr "Product deleted");
                              ("product", JObj smartphone)])) ∧
  (∃ i, products !! i = Some smartphone ∧ out_store out = delete i products) ∧
  (∀ uuid' query' body',
     out_response (app uuid' (out_store out)
       (Request GET ["api"; "products"; "2"] (Some "12345") query' (BodyOk body')))
     = not_found_response).
Proof.
  destruct (delete_removes_product "u" products ∅ ∅ "2") as [H _];
    [discriminate | exact unique_ids_products |].
  apply (H smartphone); [right; left | by_eval].
Defined.

(** ** PUT *)

(** C2 as stated fails: [validateProduct] guards the PUT route, so the body
    {price: 999} is answered 400 on an existing id and on a missing one
    alike, and nothing is updated. *)
Lemma put_price_only_rejected :
  app "u" products (put_price_only "1")
    = Outcome products validation_response
        [LBodyParser; LLogger; LAuth; LValidate; LErrorHandler] ∧
  status_of (out_response (app "u" products (put_price_only "1"))) ≠ 200 ∧
  app "u" products (put_price_only "42")
    = Outcome products validation_response
        [LBodyParser; LLogger; LAuth; LValidate; LErrorHandler] ∧
  status_of (out_response (app "u" products (put_price_only "42"))) ≠ 404.
Proof.
  assert (H1 : app "u" products (put_price_only "1")
               = Outcome products validation_response
                   [LBodyParser; LLogger; LAuth; LValidate; LErrorHandler]) by by_eval.
  assert (H2 : app "u" products (put_price_only "42")
               = Outcome products validation_response
                   [LBodyParser; LLogger; LAuth; LValidate; LErrorHandler]) by by_eval.
  rewrite H1, H2. simpl. repeat split; lia.
Qed.

(** C2 (as amended): over a store whose ids are pairwise distinct, an
    authorized PUT /api/products/:id whose body passes validation and has
    no [id] property, on the id of a stored product, answers 200 with the
    updated record and replaces that record by the body laid over it: every
    property of the body takes the body's value, every property absent from
    the body keeps its value, the id among them, and every other record is
    unchanged; on an id no record carries it answers 404 and leaves the
    store as it was. *)
Theorem put_lays_body_over_record uuid (ps : store) query (body : object) id :
  id ≠ "" →
  unique_ids ps →
  missing_fields body = false →
  body !! "id" = None →
  let out := app uuid ps
    (Request PUT ["api"; "products"; id] (Some "12345") query (BodyOk body)) in
  (∀ p : object, p ∈ ps → p !! "id" = Some (JStr id) →
     ∃ (i : nat) (updated : object),
       ps !! i = Some p ∧
       out_response out = ResJson 200 (JObj updated) ∧
       out_store out = <[i := updated]> ps ∧
       out_store out !! i = Some updated ∧
       updated !! "id" = Some (JStr id) ∧
       (∀ k v, body !! k = Some v → updated !! k = Some v) ∧
       (∀ k, body !! k = None → updated !! k = p !! k) ∧
       (∀ j, j ≠ i → out_store out !! j = ps !! j) ∧
       length (out_store out) = length ps ∧
       ids (out_store out) = ids ps) ∧
  ((∀ p : object, p ∈ ps → p !! "id" ≠ Some (JStr id)) →
     out_response out = not_found_response ∧ out_store out = ps).
Proof.
  intros Hid Hu Hv Hnoid out. subst out.
  rewrite put_product_outcome, Hv by done. split.
  - intros p Hp Hpid.
    destruct (findIndex_unique ps p id Hu Hp Hpid) as (i & Hi & Hf).
    rewrite Hf. simpl. rewrite Hi. simpl.
    assert (Hupid : (body ∪ p) !! "id" = Some (JStr id))
      by (by rewrite lookup_union_r).
    exists i, (body ∪ p). repeat split; try done.
    + apply list_lookup_insert_eq. by eapply lookup_lt_Some.
    + intros k v Hk. by apply lookup_union_Some_l.
    + intros k Hk. by apply lookup_union_r.
    + intros j Hj. by apply list_lookup_insert_ne.
    + apply length_insert.
    + unfold ids. rewrite list_fmap_insert, Hupid.
      apply list_insert_id. by rewrite list_lookup_fmap, Hi, <- Hpid.
  - intros Habs. by rewrite findIndex_absent.
Qed.

Lemma put_lays_body_over_record_witness :
  let out := app "u" products
    (Request PUT ["api"; "products"; "1"] (Some "12345") ∅ (BodyOk full_body_999)) in
  ∃ (i : nat) (updated : object),
    products !! i = Some laptop ∧
    out_response out = ResJson 200 (JObj updated) ∧
    out_store out = <[i := updated]> products ∧
    out_store out !! i = Some updated ∧
    updated !! "id" = Some (JStr "1") ∧
    (∀ k v, full_body_999 !! k = Some v → updated !! k = Some v) ∧
    (∀ k, full_body_999 !! k = None → updated !! k = laptop !! k) ∧
    (∀ j, j ≠ i → out_store out !! j = products !! j) ∧
    length (out_store out) = length products ∧
    ids (out_store out) = ids products.
Proof.
  destruct (put_lays_body_over_record "u" products ∅ full_body_999 "1") as [H _];
    [discriminate | exact unique_ids_products | by_eval | by_eval |].
  apply (H laptop); [left | by_eval].
Defined.

(** ** POST *)

(** X11: the create path when the body passes validation, has no [id]
    property and the generated id is fresh: the answer is 201 with the body
    plus that id, that record is appended last, the count grows by one, and
    a following GET of that id returns it. *)
Lemma post_without_body_id uuid (ps : store) query (body : object) :
  uuid ≠ "" →
  missing_fields body = false →
  body !! "id" = None →
  Some (JStr uuid) ∉ ids ps →
  let out := app uuid ps
    (Request POST ["api"; "products"] (Some "12345") query (BodyOk body)) in
  let created : object := <["id" := JStr uuid]> body in
  out_response out = ResJson 201 (JObj created) ∧
  out_store out = ps ++ [created] ∧
  length (out_store out) = S (length ps) ∧
  (created !! "id" ∉ ids ps) ∧
  (∀ k, k ≠ "id" → created !! k = body !! k) ∧
  (∀ uuid' query' body',
     out_response (app uuid' (out_store out)
       (Request GET ["api"; "products"; uuid] (Some "12345") query' (BodyOk body')))
     = ResJson 200 (JObj created)).
Proof.
  intros Hne Hv Hnoid Hfresh out created. subst out.
  rewrite post_product_outcome, Hv.
  assert (Hc : body ∪ {[ "id" := JStr uuid ]} = created).
  { subst created. rewrite insert_union_singleton_l.
    apply map_union_comm, map_disjoint_singleton_r_2, Hnoid. }
  rewrite Hc. simpl.
  assert (Hcid : created !! "id" = Some (JStr uuid))
    by (subst created; apply lookup_insert_eq).
  repeat split.
  - rewrite length_app. simpl. lia.
  - by rewrite Hcid.
  - intros k Hk. subst created. by apply lookup_insert_ne.
  - intros uuid' query' body'. rewrite get_product_outcome by done.
    rewrite find_findIndex.
    assert (Hf : findIndex (has_id (Some uuid)) (ps ++ [created]) = Some (length ps)).
    { clear Hc. induction ps as [|p ps' IH]; simpl.
      - by rewrite (proj2 (has_id_true uuid created) Hcid).
      - assert (Hp : has_id (Some uuid) p = false).
        { apply has_id_false. intros Hp. apply Hfresh. unfold ids. simpl.
          rewrite Hp. left. }
        rewrite Hp, IH; [done|]. intros Hin. apply Hfresh. unfold ids. simpl.
        by right. }
    rewrite Hf. simpl.
    by rewrite lookup_app_r, Nat.sub_diag by lia.
Qed.

(** ** Pagination *)

Lemma slice_all {A} (l : list A) : slice l 0 (0 + Z.of_nat (length l)) = l.
Proof.
  unfold slice. set (n := Z.of_nat (length l)).
  assert (H1 : rel_index n 0 = 0%Z) by (unfold rel_index; simpl; lia).
  assert (H2 : rel_index n (0 + n) = n).
  { unfold rel_index. destruct (Z.ltb_spec (0 + n) 0); lia. }
  rewrite H1, H2, Z.sub_0_r. subst n. rewrite Nat2Z.id. simpl.
  by rewrite take_ge.
Qed.

Lemma num_or_zero d : num_or (Some 0%Z) d = d.
Proof. reflexivity. Qed.

(** C10: on an authorized GET /api/products, a [page] or [limit] value
    that parseInt reads as 0 gives the same outcome as the request without
    that parameter; and with [limit] read as 0 and the page falling on 1,
    the answer is the whole filtered list. *)
Theorem zero_is_absent uuid (ps : store) (query : gmap string qval) body k v :
  k = "page" ∨ k = "limit" →
  query !! k = Some v →
  parseInt_query (Some v) = Some 0%Z →
  app uuid ps (Request GET ["api"; "products"] (Some "12345") query (BodyOk body))
    = app uuid ps
        (Request GET ["api"; "products"] (Some "12345") (delete k query) (BodyOk body)) ∧
  (∀ result,
     k = "limit" →
     num_or (parseInt_query (query !! "page")) 1 = 1%Z →
     filter_products ps query = Normal result →
     out_response
       (app uuid ps (Request GET ["api"; "products"] (Some "12345") query (BodyOk body)))
     = ResJson 200 (JArr (JObj <$> result))).
Proof.
  intros Hk Hq Hz. split.
  - rewrite !get_products_outcome.
    assert (Hf : filter_products ps (delete k query) = filter_products ps query).
    { unfold filter_products.
      rewrite !(lookup_delete_ne query k) by (destruct Hk as [->| ->]; discriminate).
      done. }
    assert (Hp : ∀ result, paginate result (delete k query) = paginate result query).
    { intros result. unfold paginate. destruct Hk as [->| ->].
      - rewrite lookup_delete_eq, lookup_delete_ne by discriminate.
        rewrite Hq, Hz. done.
      - rewrite lookup_delete_eq, lookup_delete_ne by discriminate.
        rewrite Hq, Hz. done. }
    rewrite Hf. destruct (filter_products ps query); [by rewrite Hp | done].
  - intros result -> Hpage Hf. rewrite get_products_outcome, Hf. simpl.
    unfold paginate. rewrite Hpage, Hq, Hz, num_or_zero. simpl.
    by rewrite slice_all.
Qed.

Lemma zero_is_absent_witness :
  app "u" products
    (Request GET ["api"; "products"] (Some "12345") {[ "limit" := QString "0" ]}
       (BodyOk ∅))
  = app "u" products
      (Request GET ["api"; "products"] (Some "12345")
         (delete "limit" {[ "limit" := QString "0" ]}) (BodyOk ∅)) ∧
  out_response
    (app "u" products
       (Request GET ["api"; "products"] (Some "12345") {[ "limit" := QString "0" ]}
          (BodyOk ∅)))
  = ResJson 200 (JArr (JObj <$> products)).
Proof.
  destruct (zero_is_absent "u" products {[ "limit" := QString "0" ]} ∅
              "limit" (QString "0")) as [H1 H2];
    [by right | by_eval | reflexivity |].
  split; [exact H1|]. apply H2; [reflexivity | by_eval | by_eval].
Defined.

(** ** The list route against its specification *)

Lemma append_cons c (a b : string) : String c a +:+ b = String c (a +:+ b).
Proof. reflexivity. Qed.

Lemma prefix_spec (sub s : string) :
  String.prefix sub s = true ↔ ∃ rest, s = sub +:+ rest.
Proof.
  revert s. induction sub as [|c sub IH]; intros s.
  - destruct s; cbn; (split; [eauto | done]).
  - destruct s as [|c' s]; cbn.
    + split; [done | by intros [? ?]].
    + destruct (Ascii.ascii_dec c c') as [<-|Hc].
      * rewrite IH. split; intros [rest H]; exists rest.
        -- by rewrite append_cons, H.
        -- rewrite append_cons in H. by injection H.
      * split; [done|]. intros [rest H]. rewrite append_cons in H.
        injection H as H _. by destruct Hc.
Qed.

(** [includes] is the substring test. *)
Lemma includes_spec (s sub : string) :
  includes s sub = true ↔ ∃ before after, s = before +:+ sub +:+ after.
Proof.
  induction s as [|c s IH]; cbn [includes].
  - rewrite orb_false_r, prefix_spec. split.
    + intros [rest H]. by exists "", rest.
    + intros ([|? ?] & after & H); [by exists after | done].
  - rewrite orb_true_iff, prefix_spec, IH. split.
    + intros [[rest H]|(before & after & H)].
      * by exists "", rest.
      * exists (String c before), after. by rewrite append_cons, H.
    + intros ([|c' before] & after & H).
      * left. by exists after.
      * right. rewrite append_cons in H. injection H as _ H. by exists before, after.
Qed.

Lemma toLowerCase_eqb_empty (s : string) :
  String.eqb (toLowerCase s) "" = String.eqb s "".
Proof. by destruct s. Qed.

Lemma filterM_pure {A} (f : A → completion bool) (g : A → bool) (l : list A) :
  Forall (λ x, f x = Normal (g x)) l → filterM f l = Normal (List.filter g l).
Proof.
  induction 1 as [|x l Hx _ IH]; simpl; [done|].
  rewrite Hx. simpl. rewrite IH. simpl. by destruct (g x).
Qed.

Lemma search_pred_text (s : string) (p : object) :
  text_record p → search_pred (toLowerCase s) p = Normal (search_keeps s p).
Proof.
  intros (n & d & c & Hn & Hd & Hc).
  unfold search_pred, search_keeps, contains_ci. rewrite Hn, Hd. simpl.
  by destruct (includes (toLowerCase n) (toLowerCase s)).
Qed.

Lemma category_pred_text (s : string) (p : object) :
  text_record p → category_pred (toLowerCase s) p = Normal (category_keeps s p).
Proof.
  intros (n & d & c & Hn & Hd & Hc).
  unfold category_pred, category_keeps, equals_ci. by rewrite Hc.
Qed.

Lemma sublist_filter_bool {A} (g : A → bool) (l : list A) :
  sublist (List.filter g l) l.
Proof.
  induction l as [|x l IH]; simpl; [constructor|].
  destruct (g x); by constructor.
Qed.

Lemma sublist_keep_if given v keeps (l : list object) :
  sublist (keep_if given v keeps l) l.
Proof.
  unfold keep_if. destruct v as [[s|r]|]; [|done..].
  destruct (given s); [apply sublist_filter_bool | done].
Qed.

Lemma sublist_slice {A} (l : list A) start end_ : sublist (slice l start end_) l.
Proof.
  unfold slice. etrans; [apply sublist_take | apply sublist_drop].
Qed.

(** One filtering step of the handler is [keep_if] under the code's notion
    of a given value. *)
Lemma filter_step expr v pred keeps (l : list object) :
  single_valued v →
  Forall text_record l →
  (∀ s p, text_record p → pred (toLowerCase s) p = Normal (keeps s p)) →
  (x ← query_toLowerCase expr v;
   if truthy_str x then filterM (pred (default "" x)) l else Normal l)
  = Normal (keep_if (λ s, negb (String.eqb s "")) v keeps l).
Proof.
  intros Hv Hl Hp. destruct v as [[s|r]|]; [|done..]. simpl.
  rewrite toLowerCase_eqb_empty. destruct (String.eqb s ""); simpl; [done|].
  apply filterM_pure. eapply Forall_impl; [exact Hl|]. intros p. apply Hp.
Qed.

Lemma Forall_keep_if (P : object → Prop) given v keeps (l : list object) :
  Forall P l → Forall P (keep_if given v keeps l).
Proof.
  rewrite !Forall_forall. intros H p Hp. apply H.
  eapply elem_of_sublist; [exact Hp | apply sublist_keep_if].
Qed.

Lemma filter_products_text (ps : store) (query : gmap string qval) :
  Forall text_record ps →
  single_valued (query !! "search") →
  single_valued (query !! "category") →
  filter_products ps query =
    Normal (keep_if (λ s, negb (String.eqb s "")) (query !! "category") category_keeps
              (keep_if (λ s, negb (String.eqb s "")) (query !! "search") search_keeps ps)).
Proof.
  intros Hps Hs Hc. unfold filter_products.
  pose proof (filter_step "req.query.search" (query !! "search") search_pred
                search_keeps ps Hs Hps search_pred_text) as H1.
  destruct (query_toLowerCase "req.query.search" (query !! "search")) as [x|e];
    [|discriminate H1].
  simpl in H1 |- *. rewrite H1. simpl.
  apply (filter_step "req.query.category" (query !! "category") category_pred
           category_keeps); [done | by apply Forall_keep_if | apply category_pred_text].
Qed.

Lemma paginate_number_or (result : list object) (query : gmap string qval) :
  paginate result query =
    let page := number_or (λ n, negb (n =? 0)%Z) (query !! "page") 1 in
    let limit := number_or (λ n, negb (n =? 0)%Z) (query !! "limit")
                   (Z.of_nat (length result)) in
    slice result ((page - 1) * limit) ((page - 1) * limit + limit).
Proof.
  unfold paginate, number_or, num_or.
  destruct (parseInt_query (query !! "page")) as [n|],
           (parseInt_query (query !! "limit")) as [m|]; simpl;
    repeat match goal with |- context [(?k =? 0)%Z] => destruct (k =? 0)%Z end; done.
Qed.

(** C4 as stated fails: with limit=0 the stated computation slices [0, 0)
    and lists nothing, while the handler, taking 0 for an absent limit,
    lists the whole collection. *)
Lemma limit_zero_lists_everything :
  listing_as_stated products (list_to_map [("limit", QString "0")]) = [] ∧
  out_response (app "u" products (list_request [("limit", QString "0")]))
    = ResJson 200 (JArr [JObj laptop; JObj smartphone; JObj coffee_maker]) ∧
  out_response (app "u" products (list_request [("limit", QString "0")]))
    ≠ ResJson 200
        (JArr (JObj <$> listing_as_stated products
                          (list_to_map [("limit", QString "0")]))).
Proof.
  assert (H1 : listing_as_stated products (list_to_map [("limit", QString "0")]) = [])
    by by_eval.
  assert (H2 : out_response (app "u" products (list_request [("limit", QString "0")]))
               = ResJson 200 (JArr [JObj laptop; JObj smartphone; JObj coffee_maker]))
    by by_eval.
  split; [exact H1|]. split; [exact H2|]. rewrite H1, H2. discriminate.
Qed.

Lemma keep_if_elem given v keeps (l : list object) (p : object) :
  p ∈ keep_if given v keeps l →
  p ∈ l ∧ ∀ s, v = Some (QString s) → given s = true → keeps s p = true.
Proof.
  unfold keep_if. destruct v as [[s|r]|].
  - destruct (given s) eqn:Hg.
    + rewrite list_elem_of_In, List.filter_In, <- list_elem_of_In.
      intros [Hp Hk]. split; [done|]. by intros ? [= <-] _.
    + intros Hp. split; [done|]. intros ? [= <-]. congruence.
  - intros Hp. split; [done|]. by intros ? [=].
  - intros Hp. split; [done|]. by intros ? [=].
Qed.

Lemma contains_ci_spec (field : option jsval) (s : string) :
  contains_ci field s = true →
  ∃ t before after,
    field = Some (JStr t) ∧ toLowerCase t = before +:+ toLowerCase s +:+ after.
Proof.
  destruct field as [[| | |t| |]|]; simpl; try done.
  intros (before & after & H)%includes_spec. by exists t, before, after.
Qed.

Lemma exact_paging_products n :
  exact_paging n
    (list_to_map [("category", QString "ELECTRONICS"); ("page", QString "2");
                  ("limit", QString "1")]).
Proof.
  unfold exact_paging.
  replace (parseInt_query
             ((list_to_map [("category", QString "ELECTRONICS");
                            ("page", QString "2"); ("limit", QString "1")]
               : gmap string qval) !! "page"))
    with (Some 2%Z) by (symmetry; by_eval).
  replace (parseInt_query
             ((list_to_map [("category", QString "ELECTRONICS");
                            ("page", QString "2"); ("limit", QString "1")]
               : gmap string qval) !! "limit"))
    with (Some 1%Z) by (symmetry; by_eval).
  unfold double_exact. simpl. change (2 ^ 53)%Z with 9007199254740992%Z.
  repeat split; lia.
Qed.

(** C4 (as amended): over a store whose records have text in name,
    description and category, an authorized GET /api/products whose search
    and category parameters are each absent or a single string, and whose
    page, limit, start and end are integers that doubles hold exactly (at
    most 2^53 in size), is answered 200 with the array obtained, in this
    order, by (1) keeping, when search is given and not empty, the records
    whose name or description contains it case-insensitively; (2) keeping,
    when category is given and not empty, the records whose category equals
    it case-insensitively; (3) Array.prototype.slice from start =
    (page-1)*limit to end = start+limit, where page is 1 and limit the
    filtered length when the parameter is absent, not numeric, or read as
    0.  The array is always a sub-sequence of the collection, each of its
    records passes the filters that were given, and the store is
    unchanged. *)
Theorem list_is_filter_then_page uuid (ps : store) (query : gmap string qval) body :
  Forall text_record ps →
  single_valued (query !! "search") →
  single_valued (query !! "category") →
  (∀ n, n ≤ length ps → exact_paging n query) →
  app uuid ps (Request GET ["api"; "products"] (Some "12345") query (BodyOk body))
    = Outcome ps (ResJson 200 (JArr (JObj <$> listing_as_coded ps query)))
        [LBodyParser; LLogger; LAuth; LHandler HProducts] ∧
  sublist (listing_as_coded ps query) ps ∧
  (∀ p : object, p ∈ listing_as_coded ps query →
     (∀ s, query !! "search" = Some (QString s) → s ≠ "" →
        ∃ t before after,
          (p !! "name" = Some (JStr t) ∨ p !! "description" = Some (JStr t)) ∧
          toLowerCase t = before +:+ toLowerCase s +:+ after) ∧
     (∀ c, query !! "category" = Some (QString c) → c ≠ "" →
        ∃ t, p !! "category" = Some (JStr t) ∧ toLowerCase t = toLowerCase c)).
Proof.
  intros Hps Hs Hc _. split; [|split].
  - rewrite get_products_outcome, (filter_products_text _ _ Hps Hs Hc).
    by rewrite paginate_number_or.
  - unfold listing_as_coded, listing.
    etrans; [apply sublist_slice|]. etrans; apply sublist_keep_if.
  - intros p Hp. unfold listing_as_coded, listing in Hp.
    eapply elem_of_sublist in Hp; [|apply sublist_slice].
    apply keep_if_elem in Hp as [Hp Hcat].
    apply keep_if_elem in Hp as [_ Hsearch]. split.
    + intros s Hq Hne.
      specialize (Hsearch s Hq). rewrite (proj2 (String.eqb_neq s "") Hne) in Hsearch.
      specialize (Hsearch eq_refl). unfold search_keeps in Hsearch.
      apply orb_true_iff in Hsearch
        as [(t & b & a & Ht & H)%contains_ci_spec|(t & b & a & Ht & H)%contains_ci_spec];
        exists t, b, a; auto.
    + intros c Hq Hne.
      specialize (Hcat c Hq). rewrite (proj2 (String.eqb_neq c "") Hne) in Hcat.
      specialize (Hcat eq_refl). unfold category_keeps, equals_ci in Hcat.
      destruct (p !! "category") as [[| | |t| |]|]; try done.
      exists t. split; [done|]. by apply String.eqb_eq.
Qed.

Lemma products_text : Forall text_record products.
Proof.
  repeat apply Forall_cons_2; [| | |apply Forall_nil_2].
  - exists "Laptop", "High-performance laptop with 16GB RAM", "electronics".
    repeat split; by_eval.
  - exists "Smartphone", "Latest model with 128GB storage", "electronics".
    repeat split; by_eval.
  - exists "Coffee Maker", "Programmable coffee maker with timer", "kitchen".
    repeat split; by_eval.
Qed.

Lemma list_is_filter_then_page_witness :
  app "u" products
    (Request GET ["api"; "products"] (Some "12345")
       (list_to_map [("category", QString "ELECTRONICS"); ("page", QString "2");
                     ("limit", QString "1")]) (BodyOk ∅))
  = Outcome products
      (ResJson 200
         (JArr (JObj <$> listing_as_coded products
                           (list_to_map [("category", QString "ELECTRONICS");
                                         ("page", QString "2");
                                         ("limit", QString "1")]))))
      [LBodyParser; LLogger; LAuth; LHandler HProducts] ∧
  sublist
    (listing_as_coded products
       (list_to_map [("category", QString "ELECTRONICS"); ("page", QString "2");
                     ("limit", QString "1")]))
    products.
Proof.
  destruct (list_is_filter_then_page "u" products
              (list_to_map [("category", QString "ELECTRONICS"); ("page", QString "2");
                            ("limit", QString "1")]) ∅) as (H1 & H2 & _);
    [exact products_text | vm_compute; exact I | vm_compute; exact I
    | intros n _; apply exact_paging_products |].
  by split.
Defined.

Example electronics_page2 :
  listing_as_coded products
    (list_to_map [("category", QString "ELECTRONICS"); ("page", QString "2");
                  ("limit", QString "1")])
  = [smartphone].
Proof. by_eval. Qed.

(** ** The id invariant away from bodies that carry an id *)

(** What a request can do to the store. *)
Lemma out_store_cases uuid (ps : store) req :
  out_store (app uuid ps req) = ps ∨
  (∃ body : object, req_body req = BodyOk body ∧
     out_store (app uuid ps req) = ps ++ [body ∪ {[ "id" := JStr uuid ]}]) ∨
  (∃ (body old : object) i, req_body req = BodyOk body ∧ ps !! i = Some old ∧
     out_store (app uuid ps req) = <[i := body ∪ old]> ps) ∨
  (∃ i, out_store (app uuid ps req) = delete i ps).
Proof.
  unfold app. destruct (req_body req) as [body|e]; [|by left].
  destruct (auth_ok _); [|by left]. unfold dispatch.
  destruct (match_route _ _ _) as [[[m pat v h] params]|]; [|by left]. simpl.
  assert (Hrun :
    match run_handler h uuid ps params (req_query req) body with
    | Normal (ps', _) =>
        ps' = ps ∨ ps' = ps ++ [body ∪ {[ "id" := JStr uuid ]}] ∨
        (∃ (old : object) i, ps !! i = Some old ∧ ps' = <[i := body ∪ old]> ps) ∨
        (∃ i, ps' = delete i ps)
    | Throw _ => True
    end).
  { destruct h; simpl.
    - by left.
    - unfold get_products. destruct (filter_products _ _); simpl; [by left | done].
    - unfold get_product. destruct (find _ _); [by left | done].
    - right. by left.
    - unfold put_product. destruct (findIndex _ _) as [i|]; [|done].
      destruct (ps !! i) as [old|] eqn:Hi; [|done].
      right. right. left. by exists old, i.
    - unfold delete_product. destruct (findIndex _ _) as [i|]; [|done].
      destruct (ps !! i); [|done]. right. right. right. by exists i.
    - unfold get_stats. destruct (count_categories _ _); simpl; [by left | done]. }
  assert (Hgoal : ∀ tr,
    let out :=
      match run_handler h uuid ps params (req_query req) body with
      | Normal (ps', res) => Outcome ps' res ([LBodyParser; LLogger; LAuth] ++ tr)
      | Throw e => Outcome ps (errorHandler e)
                     ([LBodyParser; LLogger; LAuth] ++ tr ++ [LErrorHandler])
      end in
    out_store out = ps ∨
    (∃ body0 : object, BodyOk body = BodyOk body0 ∧
       out_store out = ps ++ [body0 ∪ {[ "id" := JStr uuid ]}]) ∨
    (∃ (body0 old : object) i, BodyOk body = BodyOk body0 ∧ ps !! i = Some old ∧
       out_store out = <[i := body0 ∪ old]> ps) ∨
    (∃ i, out_store out = delete i ps)).
  { intros tr.
    destruct (run_handler h uuid ps params (req_query req) body) as [[ps' res]|e];
      simpl; [|by left].
    destruct Hrun as [->|[->|[(old & i & Hi & ->)|[i ->]]]].
    - by left.
    - right. left. by exists body.
    - right. right. left. by exists body, old, i.
    - right. right. right. by exists i. }
  destruct v.
  - unfold validateProduct. destruct (missing_fields body); [by left|]. apply Hgoal.
  - apply Hgoal.
Qed.

Lemma ids_insert (ps : store) i (p : object) :
  ids (<[i := p]> ps) = <[i := p !! "id"]> (ids ps).
Proof. unfold ids. by rewrite list_fmap_insert. Qed.

Lemma ids_delete (ps : store) i : ids (delete i ps) = delete i (ids ps).
Proof.
  unfold ids. revert i. induction ps as [|p ps IH]; intros [|i]; simpl; [done..|].
  by rewrite IH.
Qed.

(** X12: a request whose body has no [id] property, served with a
    generated id that no record carries, keeps the ids pairwise distinct. *)
Lemma unique_ids_preserved uuid (ps : store) req :
  unique_ids ps →
  (∀ body : object, req_body req = BodyOk body → body !! "id" = None) →
  Some (JStr uuid) ∉ ids ps →
  unique_ids (out_store (app uuid ps req)).
Proof.
  intros Hu Hb Hfresh.
  destruct (out_store_cases uuid ps req)
    as [->|[(body & Hbody & ->)|[(body & old & i & Hbody & Hi & ->)|[i ->]]]].
  - done.
  - unfold unique_ids, ids. rewrite fmap_app. simpl.
    rewrite lookup_union_r, lookup_singleton_eq by eauto.
    apply NoDup_app. split; [exact Hu|]. split; [|apply NoDup_singleton].
    intros x Hx ->%list_elem_of_singleton. by apply Hfresh.
  - unfold unique_ids. rewrite ids_insert, lookup_union_r by eauto.
    rewrite list_insert_id; [done|]. by apply ids_lookup.
  - unfold unique_ids. rewrite ids_delete.
    eapply sublist_NoDup; [exact Hu | apply sublist_delete].
Qed.

(** ** What a request can do to the store, by method and status *)

Lemma method_eqb_eq a b : method_eqb a b = true → a = b.
Proof. by destruct a, b. Qed.

Lemma match_route_sound rs m path r params :
  match_route rs m path = Some (r, params) →
  r ∈ rs ∧ rt_method r = m ∧ match_path (rt_path r) path = Some params.
Proof.
  induction rs as [|r0 rs IH]; simpl; [done|].
  destruct (method_eqb (rt_method r0) m) eqn:Hm.
  - destruct (match_path (rt_path r0) path) as [ps0|] eqn:Hp.
    + intros [= <- <-]. split; [left|]. split; [by apply method_eqb_eq | done].
    + intros (? & ? & ?)%IH. split; [by right | done].
  - intros (? & ? & ?)%IH. split; [by right | done].
Qed.

(** The registered routes, one by one. *)
Lemma routes_cases r :
  r ∈ routes →
  r = Route GET [] false HRoot ∨
  r = Route GET api_products false HProducts ∨
  r = Route GET (api_products ++ [Param "id"]) false HProductById ∨
  r = Route POST api_products true HPost ∨
  r = Route PUT (api_products ++ [Param "id"]) true HPut ∨
  r = Route DELETE (api_products ++ [Param "id"]) false HDelete ∨
  r = Route GET (api_products ++ [Lit "stats"]) false HStats.
Proof.
  unfold routes. rewrite !elem_of_cons, elem_of_nil. tauto.
Qed.

(** What a request does to the store, by route: nothing, or the effect of
    the POST, PUT or DELETE handler behind its guard. *)
Lemma app_effect uuid (ps : store) req :
  let out := app uuid ps req in
  out_store out = ps ∨
  (∃ body : object,
     req_method req = POST ∧ req_body req = BodyOk body ∧
     missing_fields body = false ∧
     out_store out = ps ++ [body ∪ {[ "id" := JStr uuid ]}] ∧
     status_of (out_response out) = 201) ∨
  (∃ (body old : object) i,
     req_method req = PUT ∧ req_body req = BodyOk body ∧
     missing_fields body = false ∧ ps !! i = Some old ∧
     out_store out = <[i := body ∪ old]> ps ∧
     status_of (out_response out) = 200) ∨
  (∃ i (deleted : object),
     req_method req = DELETE ∧ ps !! i = Some deleted ∧
     out_store out = delete i ps ∧
     status_of (out_response out) = 200).
Proof.
  cbv zeta. unfold app.
  destruct (req_body req) as [body|e] eqn:Hbody; [|by left].
  destruct (auth_ok _); [|by left]. unfold dispatch.
  destruct (match_route _ _ _) as [[r params]|] eqn:Hr; [|by left].
  apply match_route_sound in Hr as (Hin & Hm & _).
  apply routes_cases in Hin as [->|[->|[->|[->|[->|[->| ->]]]]]]; simpl in *.
  - by left.
  - unfold get_products. destruct (filter_products _ _); by left.
  - unfold get_product. destruct (find _ _); by left.
  - unfold validateProduct. destruct (missing_fields body) eqn:Hv; [by left|].
    right. left. by exists body.
  - unfold validateProduct. destruct (missing_fields body) eqn:Hv; [by left|].
    unfold put_product. destruct (findIndex _ _) as [i|]; [|by left].
    destruct (ps !! i) as [old|] eqn:Hi; [|by left].
    right. right. left. by exists body, old, i.
  - unfold delete_product. destruct (findIndex _ _) as [i|]; [|by left].
    destruct (ps !! i) as [deleted|] eqn:Hi; [|by left].
    right. right. right. by exists i, deleted.
  - unfold get_stats. destruct (count_categories _ _); by left.
Qed.

(** X3: a request leaves the collection as it was, or it is a POST
    answered 201 after which the collection is one record longer with the
    old records in their places, or a PUT answered 200 after which the
    collection has the same length and differs in one position at most, or
    a DELETE answered 200 after which the collection is one record shorter
    and a sub-sequence of the old one. *)
Theorem request_effect uuid (ps : store) req :
  let out := app uuid ps req in
  out_store out = ps ∨
  (req_method req = POST ∧ status_of (out_response out) = 201 ∧
   length (out_store out) = S (length ps) ∧
   ∀ j, j < length ps → out_store out !! j = ps !! j) ∨
  (req_method req = PUT ∧ status_of (out_response out) = 200 ∧
   length (out_store out) = length ps ∧
   ∃ i, ∀ j, j ≠ i → out_store out !! j = ps !! j) ∨
  (req_method req = DELETE ∧ status_of (out_response out) = 200 ∧
   S (length (out_store out)) = length ps ∧
   sublist (out_store out) ps).
Proof.
  cbv zeta.
  destruct (app_effect uuid ps req)
    as [H|[(body & Hm & _ & _ & -> & Hst)
       |[(body & old & i & Hm & _ & _ & Hi & -> & Hst)
        |(i & d & Hm & Hi & -> & Hst)]]].
  - by left.
  - right. left. split; [done|]. split; [done|]. split.
    + rewrite length_app. simpl. lia.
    + intros j Hj. by apply lookup_app_l.
  - right. right. left. split; [done|]. split; [done|]. split.
    + apply length_insert.
    + exists i. intros j Hj. by apply list_lookup_insert_ne.
  - right. right. right. split; [done|]. split; [done|]. split.
    + rewrite length_delete by eauto. apply lookup_lt_Some in Hi. lia.
    + apply sublist_delete.
Qed.

(** X2: a request answered with a status of 400 or more changed nothing. *)
Theorem error_status_no_effect uuid (ps : store) req :
  400 ≤ status_of (out_response (app uuid ps req)) →
  out_store (app uuid ps req) = ps.
Proof.
  intros Hst.
  destruct (app_effect uuid ps req)
    as [H|[(? & _ & _ & _ & _ & H)|[(? & ? & ? & _ & _ & _ & _ & _ & H)
       |(? & ? & _ & _ & _ & H)]]]; [done | lia..].
Qed.

Lemma error_status_no_effect_witness :
  out_store (app "u" products (put_price_only "1")) = products.
Proof.
  apply (error_status_no_effect "u" products (put_price_only "1")).
  replace (out_response (app "u" products (put_price_only "1")))
    with validation_response by (symmetry; by_eval).
  simpl. lia.
Defined.

(** Only the POST handler reads the generated id. *)
Lemma uuid_irrelevant uuid uuid' (ps : store) req :
  req_method req ≠ POST → app uuid ps req = app uuid' ps req.
Proof.
  intros Hm. unfold app.
  destruct (req_body req) as [body|e]; [|done].
  destruct (auth_ok _); [|done]. unfold dispatch.
  destruct (match_route _ _ _) as [[r params]|] eqn:Hr; [|done].
  apply match_route_sound in Hr as (Hin & Hr & _).
  apply routes_cases in Hin as [->|[->|[->|[->|[->|[->| ->]]]]]]; simpl in *;
    congruence.
Qed.

(** X1: a GET request, whatever its path, key, query and body, leaves the
    store as it was, and asking again gives the same outcome. *)
Theorem get_is_read_only uuid uuid' (ps : store) req :
  req_method req = GET →
  out_store (app uuid ps req) = ps ∧
  app uuid' (out_store (app uuid ps req)) req = app uuid ps req.
Proof.
  intros Hm.
  assert (Hs : out_store (app uuid ps req) = ps).
  { destruct (app_effect uuid ps req)
      as [H|[(? & H & _)|[(? & ? & ? & H & _)|(? & ? & H & _)]]];
      [done | congruence..]. }
  split; [exact Hs|]. rewrite Hs. apply uuid_irrelevant. congruence.
Qed.

Lemma get_is_read_only_witness :
  out_store (app "u" products stats_request) = products ∧
  app "v" (out_store (app "u" products stats_request)) stats_request
    = app "u" products stats_request.
Proof. by apply (get_is_read_only "u" "v" products stats_request). Defined.

(** ** The records of a reachable store *)

Lemma truthy_is_Some (v : option jsval) : truthy v = true → is_Some v.
Proof. destruct v; [eauto | done]. Qed.

Lemma not_null_is_Some (v : option jsval) : loose_null v = false → is_Some v.
Proof. destruct v; [eauto | done]. Qed.

(** A validated body laid over a record that has an id gives a populated
    record. *)
Lemma populated_union (body old : object) :
  missing_fields body = false → is_Some (old !! "id") → populated (body ∪ old).
Proof.
  intros Hv Hid. split.
  - apply lookup_union_is_Some. by right.
  - unfold missing_fields in *.
    apply orb_false_iff in Hv as [Hv Hi]. apply orb_false_iff in Hv as [Hv Hc].
    apply orb_false_iff in Hv as [Hv Hp]. apply orb_false_iff in Hv as [Hn Hd].
    apply negb_false_iff in Hn, Hd, Hc.
    rewrite !lookup_union_l'
      by eauto using truthy_is_Some, not_null_is_Some.
    by rewrite Hn, Hd, Hp, Hc, Hi.
Qed.

Lemma populated_products : Forall populated products.
Proof.
  repeat apply Forall_cons_2; [| | |apply Forall_nil_2].
  - split; [exists (JStr "1")|]; by_eval.
  - split; [exists (JStr "2")|]; by_eval.
  - split; [exists (JStr "3")|]; by_eval.
Qed.

(** X4: every record of every store the server can reach has an [id]
    property and passes the validator's test: name, description and
    category truthy, price and inStock neither null nor undefined. *)
Theorem reachable_populated (ps : store) :
  reachable ps → Forall populated ps.
Proof.
  induction 1 as [|uuid ps req _ IH]; [exact populated_products|].
  destruct (app_effect uuid ps req)
    as [->|[(body & _ & _ & Hv & -> & _)
       |[(body & old & i & _ & _ & Hv & Hi & -> & _)|(i & d & _ & _ & -> & _)]]].
  - exact IH.
  - apply Forall_app. split; [exact IH|]. apply Forall_singleton.
    apply populated_union; [exact Hv|]. rewrite lookup_singleton_eq. eauto.
  - apply Forall_insert; [exact IH|].
    apply populated_union; [exact Hv|].
    by apply (Forall_lookup_1 _ _ _ _ IH Hi).
  - apply Forall_delete, IH.
Qed.

Lemma reachable_populated_witness :
  Forall populated (out_store (app "u" products post_with_id_1)).
Proof.
  apply (reachable_populated (out_store (app "u" products post_with_id_1))).
  apply reach_step, reach_init.
Defined.

(** ** Statuses *)

Lemma run_handler_status h uuid (ps ps' : store) params query body res :
  run_handler h uuid ps params query body = Normal (ps', res) →
  status_of res = 200 ∨ status_of res = 201.
Proof.
  destruct h; simpl.
  - intros [= _ <-]. by left.
  - unfold get_products. destruct (filter_products _ _); simpl; [|done].
    intros [= _ <-]. by left.
  - unfold get_product. destruct (find _ _); [|done]. intros [= _ <-]. by left.
  - intros [= _ <-]. by right.
  - unfold put_product. destruct (findIndex _ _) as [i|]; [|done].
    destruct (ps !! i); [|done]. intros [= _ <-]. by left.
  - unfold delete_product. destruct (findIndex _ _) as [i|]; [|done].
    destruct (ps !! i); [|done]. intros [= _ <-]. by left.
  - unfold get_stats. destruct (count_categories _ _); simpl; [|done].
    intros [= _ <-]. by left.
Qed.

(** X5: a request that carries the key, with a body the parser accepted,
    is answered 200, 201, 400, 404 or 500, and never 401. *)
Theorem authorized_statuses uuid (ps : store) req body :
  req_body req = BodyOk body →
  req_api_key req = Some "12345" →
  status_of (out_response (app uuid ps req)) ∈ [200; 201; 400; 404; 500] ∧
  out_response (app uuid ps req) ≠ unauthorized.
Proof.
  intros Hb Hk.
  assert (H : status_of (out_response (app uuid ps req)) ∈ [200; 201; 400; 404; 500]).
  { rewrite (app_authorized _ _ _ _ Hb Hk).
    destruct (dispatch uuid ps req body) as [tr [[ps' res]|e]] eqn:Hd.
    - simpl. unfold dispatch in Hd.
      destruct (match_route _ _ _) as [[r params]|].
      + assert (Hrun : run_handler (rt_handler r) uuid ps params (req_query req) body
                       = Normal (ps', res)).
        { destruct (rt_validate r); [destruct (validateProduct body)|];
            by injection Hd as _ Hd. }
        apply run_handler_status in Hrun as [-> | ->];
          rewrite !elem_of_cons; tauto.
      + injection Hd as _ _ <-. simpl. rewrite !elem_of_cons. tauto.
    - pose proof (dispatch_throw uuid ps req body e) as He.
      rewrite Hd in He. cbn [out_response].
      destruct (He eq_refl) as [->|[->|Hs]].
      + simpl. rewrite !elem_of_cons. tauto.
      + simpl. rewrite !elem_of_cons. tauto.
      + rewrite (errorHandler_no_status _ Hs). simpl. rewrite !elem_of_cons. tauto. }
  split; [exact H|]. intros Hu. rewrite Hu in H. simpl in H.
  rewrite !elem_of_cons, elem_of_nil in H.
  destruct H as [H|[H|[H|[H|[H|[]]]]]]; discriminate H.
Qed.

Lemma authorized_statuses_witness :
  status_of (out_response (app "u" products stats_request))
    ∈ [200; 201; 400; 404; 500] ∧
  out_response (app "u" products stats_request) ≠ unauthorized.
Proof.
  apply (authorized_statuses "u" products stats_request ∅); reflexivity.
Defined.

(** X6: once the body is parsed, the 401 answer is given exactly to the
    requests whose x-api-key is not "12345". *)
Theorem answered_401_iff uuid (ps : store) req body :
  req_body req = BodyOk body →
  (out_response (app uuid ps req) = unauthorized ↔
   req_api_key req ≠ Some "12345").
Proof.
  intros Hb. split.
  - intros Hu Hk.
    assert (H : status_of (out_response (app uuid ps req)) = 401)
      by (by rewrite Hu).
    revert H. rewrite (app_authorized _ _ _ _ Hb Hk).
    destruct (dispatch uuid ps req body) as [tr [[ps' res]|e]] eqn:Hd.
    + simpl. unfold dispatch in Hd.
      destruct (match_route _ _ _) as [[r params]|].
      * assert (Hrun : run_handler (rt_handler r) uuid ps params (req_query req) body
                       = Normal (ps', res)).
        { destruct (rt_validate r); [destruct (validateProduct body)|];
            by injection Hd as _ Hd. }
        apply run_handler_status in Hrun as [-> | ->]; discriminate.
      * injection Hd as _ _ <-. discriminate.
    + pose proof (dispatch_throw uuid ps req body e) as He.
      rewrite Hd in He. cbn [out_response].
      destruct (He eq_refl) as [->|[->|Hs]]; [discriminate..|].
      rewrite (errorHandler_no_status _ Hs). discriminate.
  - intros Hk. unfold app. by rewrite Hb, (auth_ok_false _ Hk).
Qed.

Lemma answered_401_iff_witness :
  out_response (app "u" products root_without_key) = unauthorized ↔
  req_api_key root_without_key ≠ Some "12345".
Proof. by apply (answered_401_iff "u" products root_without_key ∅). Defined.

(** ** GET /api/products/:id *)

(** X7: GET /api/products/:id answers 404 NotFoundError exactly when no
    record carries the id as a string; a record it answers with is the
    first of the collection that carries it. *)
Theorem get_product_first_match uuid (ps : store) query body id :
  id ≠ "" →
  let out := app uuid ps
    (Request GET ["api"; "products"; id] (Some "12345") query (BodyOk body)) in
  (out_response out = not_found_response ↔
   ∀ p : object, p ∈ ps → p !! "id" ≠ Some (JStr id)) ∧
  (∀ p : object, out_response out = ResJson 200 (JObj p) →
     ∃ i, ps !! i = Some p ∧ p !! "id" = Some (JStr id) ∧
          ∀ j (q : object), j < i → ps !! j = Some q → q !! "id" ≠ Some (JStr id)).
Proof.
  intros Hid out. subst out. rewrite get_product_outcome by done.
  rewrite find_findIndex.
  destruct (findIndex (has_id (Some id)) ps) as [i|] eqn:Hf; simpl.
  - destruct (findIndex_Some _ _ _ Hf) as [(x & Hx & Hxid%has_id_true) Hlt].
    rewrite Hx. simpl. split.
    + split; [discriminate|]. intros Hall. exfalso.
      eapply Hall; [|exact Hxid]. by eapply list_elem_of_lookup_2.
    + intros p [= <-]. exists i. split; [done|]. split; [done|].
      intros j q Hj Hq. apply has_id_false. by eapply Hlt.
  - split.
    + split; [|done]. intros _ p Hp. apply has_id_false.
      by apply (proj1 (findIndex_None _ _) Hf).
    + intros p. discriminate.
Qed.

Lemma get_product_first_match_witness :
  let out := app "u" products
    (Request GET ["api"; "products"; "2"] (Some "12345") ∅ (BodyOk ∅)) in
  (out_response out = not_found_response ↔
   ∀ p : object, p ∈ products → p !! "id" ≠ Some (JStr "2")) ∧
  (∀ p : object, out_response out = ResJson 200 (JObj p) →
     ∃ i, products !! i = Some p ∧ p !! "id" = Some (JStr "2") ∧
          ∀ j (q : object), j < i → products !! j = Some q →
                            q !! "id" ≠ Some (JStr "2")).
Proof. by apply (get_product_first_match "u" products ∅ ∅ "2"). Defined.

(** ** The stats handler is never entered *)

Lemma stats_path_is_id_path path params :
  match_path (api_products ++ [Lit "stats"]) path = Some params →
  is_Some (match_path (api_products ++ [Param "id"]) path).
Proof.
  destruct path as [|a [|b [|c [|d rest]]]]; simpl; try done.
  - destruct (String.eqb (toLowerCase a) _); [|done].
    destruct (String.eqb (toLowerCase b) _); [|done].
    destruct c as [|ch c]; [done|]. simpl. eauto.
  - destruct (String.eqb (toLowerCase a) _); [|done].
    destruct (String.eqb (toLowerCase b) _); [|done].
    by destruct (String.eqb (toLowerCase c) _).
Qed.

Lemma stats_never_matched m path r params :
  match_route routes m path = Some (r, params) → rt_handler r ≠ HStats.
Proof.
  unfold routes. destruct m; cbn [match_route method_eqb rt_method rt_path].
  - destruct (match_path [] path); [by intros [= <- _]|].
    destruct (match_path api_products path); [by intros [= <- _]|].
    destruct (match_path (api_products ++ [Param "id"]) path) eqn:Hid;
      [by intros [= <- _]|].
    destruct (match_path (api_products ++ [Lit "stats"]) path) eqn:Hst; [|done].
    apply stats_path_is_id_path in Hst as [? Hst]. congruence.
  - destruct (match_path api_products path); [by intros [= <- _] | done].
  - destruct (match_path (api_products ++ [Param "id"]) path);
      [by intros [= <- _] | done].
  - destruct (match_path (api_products ++ [Param "id"]) path);
      [by intros [= <- _] | done].
Qed.

(** X8: no request, whatever its method, path, key and body, enters the
    handler registered for /api/products/stats: every path that route
    accepts is taken by /api/products/:id, registered before it. *)
Theorem stats_handler_never_runs uuid (ps : store) req :
  LHandler HStats ∉ out_trace (app uuid ps req).
Proof.
  unfold app. destruct (req_body req) as [body|e].
  - destruct (auth_ok _).
    + unfold dispatch.
      destruct (match_route _ _ _) as [[r params]|] eqn:Hr.
      * apply stats_never_matched in Hr.
        destruct (rt_validate r); [destruct (validateProduct body)|];
          try destruct (run_handler _ _ _ _ _ _) as [[ps' res]|e']; simpl;
          rewrite ?elem_of_cons, elem_of_nil; intros H;
          repeat (destruct H as [H|H]; [try discriminate H; congruence|]); done.
      * simpl. rewrite !elem_of_cons, elem_of_nil. intros H.
        repeat (destruct H as [H|H]; [discriminate H|]); done.
    + simpl. rewrite !elem_of_cons, elem_of_nil. intros H.
      repeat (destruct H as [H|H]; [discriminate H|]); done.
  - simpl. rewrite !elem_of_cons, elem_of_nil. intros H.
    repeat (destruct H as [H|H]; [discriminate H|]); done.
Qed.

(** ** Repeating a write *)

Lemma findIndex_insert {A} (f : A → bool) (l : list A) i (y : A) :
  findIndex f l = Some i → f y = true → findIndex f (<[i := y]> l) = Some i.
Proof.
  revert i. induction l as [|x l IH]; intros i; simpl; [done|].
  destruct (f x) eqn:Hx.
  - intros [= <-] Hy. simpl. by rewrite Hy.
  - intros (i' & Hi' & ->)%fmap_Some Hy. simpl. rewrite Hx.
    by rewrite (IH _ Hi' Hy).
Qed.

(** X9: a PUT whose body has no [id] property is idempotent: sent again to
    the store it left, it gets the same answer and leaves that store as it
    is, whether it updated a record, found none or failed validation. *)
Theorem put_twice uuid uuid' (ps : store) query (body : object) id :
  id ≠ "" →
  body !! "id" = None →
  let req := Request PUT ["api"; "products"; id] (Some "12345") query (BodyOk body) in
  let out := app uuid ps req in
  out_response (app uuid' (out_store out) req) = out_response out ∧
  out_store (app uuid' (out_store out) req) = out_store out.
Proof.
  intros Hid Hnoid req out. subst out req. rewrite !put_product_outcome by done.
  destruct (missing_fields body); [done|].
  destruct (findIndex (has_id (Some id)) ps) as [i|] eqn:Hf; simpl.
  - destruct (findIndex_Some _ _ _ Hf) as [(old & Hold & Hoid) _].
    rewrite Hold. simpl.
    assert (Hup : has_id (Some id) (body ∪ old) = true).
    { apply has_id_true. rewrite lookup_union_r by done. by apply has_id_true. }
    rewrite (findIndex_insert _ _ _ _ Hf Hup). simpl.
    rewrite list_lookup_insert_eq by (by eapply lookup_lt_Some). simpl.
    rewrite (assoc_L (∪)), (idemp_L (∪)). by rewrite list_insert_insert_eq.
  - by rewrite Hf.
Qed.

Lemma put_twice_witness :
  let req := Request PUT ["api"; "products"; "1"] (Some "12345") ∅
               (BodyOk full_body_999) in
  let out := app "u" products req in
  out_response (app "v" (out_store out) req) = out_response out ∧
  out_store (app "v" (out_store out) req) = out_store out.
Proof.
  apply (put_twice "u" "v" products ∅ full_body_999 "1"); [discriminate | by_eval].
Defined.

(** X10: over a store whose ids are pairwise distinct, a DELETE sent again
    to the store it left is answered 404 and changes nothing. *)
Theorem delete_twice uuid uuid' (ps : store) query body id :
  id ≠ "" →
  unique_ids ps →
  let req := Request DELETE ["api"; "products"; id] (Some "12345") query (BodyOk body) in
  let out := app uuid ps req in
  out_response (app uuid' (out_store out) req) = not_found_response ∧
  out_store (app uuid' (out_store out) req) = out_store out.
Proof.
  intros Hid Hu req out. subst out req. rewrite !delete_product_outcome by done.
  destruct (findIndex (has_id (Some id)) ps) as [i|] eqn:Hf; simpl.
  - destruct (findIndex_Some _ _ _ Hf) as [(p & Hp & Hpid%has_id_true) _].
    rewrite Hp. simpl.
    rewrite findIndex_absent; [done|]. by eapply delete_removes_id.
  - by rewrite Hf.
Qed.

Lemma delete_twice_witness :
  let req := Request DELETE ["api"; "products"; "3"] (Some "12345") ∅ (BodyOk ∅) in
  let out := app "u" products req in
  out_response (app "v" (out_store out) req) = not_found_response ∧
  out_store (app "v" (out_store out) req) = out_store out.
Proof.
  apply (delete_twice "u" "v" products ∅ ∅ "3");
    [discriminate | exact unique_ids_products].
Defined.

(** ** Creating without an id in the body *)

Lemma fresh_for_products : Some (JStr "generated") ∉ ids products.
Proof.
  replace (ids products) with [Some (JStr "1"); Some (JStr "2"); Some (JStr "3")]
    by (symmetry; by_eval).
  rewrite !elem_of_cons, elem_of_nil. intros H.
  repeat (destruct H as [H|H]; [discriminate H|]). exact H.
Qed.

Lemma post_without_body_id_witness :
  let out := app "generated" products
    (Request POST ["api"; "products"] (Some "12345") ∅ (BodyOk full_body_999)) in
  let created : object := <["id" := JStr "generated"]> full_body_999 in
  out_response out = ResJson 201 (JObj created) ∧
  out_store out = products ++ [created] ∧
  length (out_store out) = S (length products) ∧
  (created !! "id" ∉ ids products) ∧
  (∀ k, k ≠ "id" → created !! k = full_body_999 !! k) ∧
  (∀ uuid' query' body',
     out_response (app uuid' (out_store out)
       (Request GET ["api"; "products"; "generated"] (Some "12345") query'
          (BodyOk body')))
     = ResJson 200 (JObj created)).
Proof.
  apply (post_without_body_id "generated" products ∅ full_body_999);
    [discriminate | by_eval | by_eval | exact fresh_for_products].
Defined.

Lemma unique_ids_preserved_witness :
  unique_ids (out_store (app "generated" products
    (Request POST ["api"; "products"] (Some "12345") ∅ (BodyOk full_body_999)))).
Proof.
  apply (unique_ids_preserved "generated" products
           (Request POST ["api"; "products"] (Some "12345") ∅ (BodyOk full_body_999)));
    [exact unique_ids_products | | exact fresh_for_products].
  intros body [= <-]. by_eval.
Defined.

(** ** Pages *)

Lemma slice_nonneg {A} (l : list A) (start len : Z) :
  (0 ≤ start)%Z → (0 ≤ len)%Z →
  slice l start (start + len) = take (Z.to_nat len) (drop (Z.to_nat start) l).
Proof.
  intros Hs Hl. unfold slice, rel_index. cbv zeta.
  destruct (Z.ltb_spec start 0); [lia|].
  destruct (Z.ltb_spec (start + len) 0); [lia|].
  set (n := Z.of_nat (length l)).
  destruct (decide (n ≤ start)%Z) as [Hge|Hlt].
  - rewrite (drop_ge l (Z.to_nat (Z.min start n))) by lia.
    rewrite (drop_ge l (Z.to_nat start)) by lia. by rewrite !take_nil.
  - replace (Z.to_nat (Z.min start n)) with (Z.to_nat start) by lia.
    destruct (decide (start + len ≤ n)%Z).
    + f_equal. lia.
    + rewrite !take_ge; [done| |]; rewrite length_drop; lia.
Qed.

(** X13: with a page and a limit that parseInt reads as 1 or more, and
    whose product is an integer that doubles hold exactly (at most 2^53),
    the answer is the [limit] records that follow the first (page-1)*limit
    of the filtered list; it has at most [limit] records, and consecutive
    pages tile the list: what follows page [page]'s start is that page
    followed by what follows the start of the next. *)
Theorem paginate_positive (result : list object) (query : gmap string qval)
    (page limit : Z) :
  parseInt_query (query !! "page") = Some page →
  parseInt_query (query !! "limit") = Some limit →
  (1 ≤ page)%Z → (1 ≤ limit)%Z →
  (page * limit ≤ 2 ^ 53)%Z →
  exact_paging (length result) query ∧
  paginate result query
    = take (Z.to_nat limit) (drop (Z.to_nat ((page - 1) * limit)) result) ∧
  (Z.of_nat (length (paginate result query)) ≤ limit)%Z ∧
  drop (Z.to_nat ((page - 1) * limit)) result
    = paginate result query ++ drop (Z.to_nat (page * limit)) result.
Proof.
  intros Hp Hl Hp1 Hl1 Hbound.
  assert (H : paginate result query
              = take (Z.to_nat limit) (drop (Z.to_nat ((page - 1) * limit)) result)).
  { unfold paginate. rewrite Hp, Hl. unfold num_or.
    destruct (Z.eqb_spec page 0); [lia|]. destruct (Z.eqb_spec limit 0); [lia|].
    apply slice_nonneg; nia. }
  split; [|split; [exact H|]].
  - unfold exact_paging. rewrite Hp, Hl. unfold num_or.
    destruct (Z.eqb_spec page 0); [lia|]. destruct (Z.eqb_spec limit 0); [lia|].
    unfold double_exact. repeat split; nia.
  - rewrite H. split.
    + rewrite length_take. lia.
    + rewrite <- (take_drop (Z.to_nat limit)
                    (drop (Z.to_nat ((page - 1) * limit)) result)) at 1.
      f_equal. rewrite drop_drop. f_equal. nia.
Qed.

Lemma paginate_positive_witness :
  paginate products (list_to_map [("page", QString "2"); ("limit", QString "2")])
    = take (Z.to_nat 2) (drop (Z.to_nat ((2 - 1) * 2)) products) ∧
  (Z.of_nat (length (paginate products
      (list_to_map [("page", QString "2"); ("limit", QString "2")]))) ≤ 2)%Z ∧
  drop (Z.to_nat ((2 - 1) * 2)) products
    = paginate products (list_to_map [("page", QString "2"); ("limit", QString "2")])
      ++ drop (Z.to_nat (2 * 2)) products.
Proof.
  apply (paginate_positive products
           (list_to_map [("page", QString "2"); ("limit", QString "2")]) 2 2);
    [by_eval | by_eval | lia | lia | change (2 ^ 53)%Z with 9007199254740992%Z; lia].
Defined.

(** ** Values that are not text *)

Lemma call_toLowerCase_type_error expr v e :
  call_toLowerCase expr v = Throw e → ∃ msg, e = TypeError msg.
Proof. destruct v as [[]|]; simpl; intros [= <-]; eauto. Qed.

Lemma query_toLowerCase_type_error expr v e :
  query_toLowerCase expr v = Throw e → ∃ msg, e = TypeError msg.
Proof. destruct v as [[]|]; simpl; intros [= <-]; eauto. Qed.

Lemma search_pred_type_error search p e :
  search_pred search p = Throw e → ∃ msg, e = TypeError msg.
Proof.
  unfold search_pred.
  intros [H|(name & _ & H)]%bind_throw; [by eapply call_toLowerCase_type_error|].
  destruct (includes name search); [done|].
  apply bind_throw in H as [H|(d & _ & H)];
    [by eapply call_toLowerCase_type_error | discriminate H].
Qed.

Lemma category_pred_type_error category p e :
  category_pred category p = Throw e → ∃ msg, e = TypeError msg.
Proof.
  unfold category_pred.
  intros [H|(c & _ & H)]%bind_throw;
    [by eapply call_toLowerCase_type_error | discriminate H].
Qed.

Lemma filter_products_type_error ps query e :
  filter_products ps query = Throw e → ∃ msg, e = TypeError msg.
Proof.
  unfold filter_products.
  intros [H|(search & _ & H)]%bind_throw; [by eapply query_toLowerCase_type_error|].
  apply bind_throw in H as [H|(result & _ & H)].
  - destruct (truthy_str search); [|done].
    eapply (filterM_throw _ (λ e, ∃ msg, e = TypeError msg)); [|exact H].
    intros x e'. apply search_pred_type_error.
  - apply bind_throw in H as [H|(category & _ & H)];
      [by eapply query_toLowerCase_type_error|].
    destruct (truthy_str category); [|done].
    eapply (filterM_throw _ (λ e, ∃ msg, e = TypeError msg)); [|exact H].
    intros x e'. apply category_pred_type_error.
Qed.

(** The list route, once its filter throws. *)
Lemma get_products_throws uuid (ps : store) query body :
  (∃ e, filter_products ps query = Throw e) →
  ∃ msg,
    app uuid ps (Request GET ["api"; "products"] (Some "12345") query (BodyOk body))
    = Outcome ps
        (ResJson 500 (JObj (obj [("error", JStr "TypeError"); ("message", JStr msg)])))
        [LBodyParser; LLogger; LAuth; LHandler HProducts; LErrorHandler].
Proof.
  intros [e He]. rewrite get_products_outcome, He.
  apply filter_products_type_error in He as [msg ->]. by exists msg.
Qed.

(** [filter] stops at the first callback that throws. *)
Lemma filterM_throws {A} (f : A → completion bool) (l : list A) x :
  x ∈ l → (∃ e, f x = Throw e) → ∃ e, filterM f l = Throw e.
Proof.
  intros Hx Hfx. induction l as [|y l IH]; [by apply elem_of_nil in Hx|].
  simpl. destruct (f y) as [b|e] eqn:Hy; [|by exists e].
  apply elem_of_cons in Hx as [->|Hx].
  - destruct Hfx as [e He]. congruence.
  - destruct (IH Hx) as [e He]. exists e. simpl. by rewrite He.
Qed.

(** X14: a [search] or [category] parameter that is not a single string (a
    repeated or bracketed parameter) makes GET /api/products answer 500
    with error "TypeError", whatever the store holds, and changes nothing. *)
Theorem non_string_parameter_is_500 uuid (ps : store) query body k rendering :
  k = "search" ∨ k = "category" →
  query !! k = Some (QNonString rendering) →
  ∃ msg,
    app uuid ps (Request GET ["api"; "products"] (Some "12345") query (BodyOk body))
    = Outcome ps
        (ResJson 500 (JObj (obj [("error", JStr "TypeError"); ("message", JStr msg)])))
        [LBodyParser; LLogger; LAuth; LHandler HProducts; LErrorHandler].
Proof.
  intros Hk Hq. apply get_products_throws. unfold filter_products.
  destruct Hk as [-> | ->].
  - rewrite Hq. simpl. eauto.
  - destruct (query_toLowerCase "req.query.search" (query !! "search"))
      as [search|e]; [|simpl; eauto].
    simpl.
    destruct (if truthy_str search
              then filterM (search_pred (default "" search)) ps
              else Normal ps) as [result|e]; [|simpl; eauto].
    simpl. rewrite Hq. simpl. eauto.
Qed.

Lemma non_string_parameter_is_500_witness :
  ∃ msg,
    app "u" products
      (Request GET ["api"; "products"] (Some "12345")
         {[ "search" := QNonString "a,b" ]} (BodyOk ∅))
    = Outcome products
        (ResJson 500 (JObj (obj [("error", JStr "TypeError"); ("message", JStr msg)])))
        [LBodyParser; LLogger; LAuth; LHandler HProducts; LErrorHandler].
Proof.
  apply (non_string_parameter_is_500 "u" products
           {[ "search" := QNonString "a,b" ]} ∅ "search" "a,b");
    [by left | by_eval].
Defined.

(** X15: when a stored record has a name that is not text (the validator
    only asks for a truthy name), every GET /api/products with a non-empty
    search string is answered 500 with error "TypeError". *)
Theorem search_over_untyped_name_is_500 uuid (ps : store) query body s (p : object) :
  query !! "search" = Some (QString s) →
  s ≠ "" →
  p ∈ ps →
  (∀ t, p !! "name" ≠ Some (JStr t)) →
  ∃ msg,
    app uuid ps (Request GET ["api"; "products"] (Some "12345") query (BodyOk body))
    = Outcome ps
        (ResJson 500 (JObj (obj [("error", JStr "TypeError"); ("message", JStr msg)])))
        [LBodyParser; LLogger; LAuth; LHandler HProducts; LErrorHandler].
Proof.
  intros Hq Hs Hp Hname. apply get_products_throws. unfold filter_products.
  rewrite Hq. simpl. rewrite toLowerCase_eqb_empty.
  rewrite (proj2 (String.eqb_neq s "") Hs). simpl.
  destruct (filterM_throws (search_pred (toLowerCase s)) ps p Hp) as [e He].
  - unfold search_pred.
    destruct (p !! "name") as [[| | |t| |]|] eqn:Hn; simpl; eauto.
    by destruct (Hname t).
  - rewrite He. simpl. eauto.
Qed.

Lemma search_over_untyped_name_is_500_witness :
  ∃ msg,
    app "u" (out_store (app "generated" products post_numeric_name))
      (Request GET ["api"; "products"] (Some "12345")
         {[ "search" := QString "phone" ]} (BodyOk ∅))
    = Outcome (out_store (app "generated" products post_numeric_name))
        (ResJson 500 (JObj (obj [("error", JStr "TypeError"); ("message", JStr msg)])))
        [LBodyParser; LLogger; LAuth; LHandler HProducts; LErrorHandler].
Proof.
  apply (search_over_untyped_name_is_500 "u"
           (out_store (app "generated" products post_numeric_name))
           {[ "search" := QString "phone" ]} ∅ "phone"
           (obj [("id", JStr "generated"); ("name", JNum 5);
                 ("description", JStr "Five"); ("price", JNum 5);
                 ("category", JStr "numbers"); ("inStock", JBool true)]));
    [by_eval | discriminate | |].
  - replace (out_store (app "generated" products post_numeric_name))
      with (products ++ [obj [("id", JStr "generated"); ("name", JNum 5);
                              ("description", JStr "Five"); ("price", JNum 5);
                              ("category", JStr "numbers"); ("inStock", JBool true)]])
      by (symmetry; by_eval).
    apply elem_of_app. right. left.
  - intros t.
    replace (obj [("id", JStr "generated"); ("name", JNum 5);
                  ("description", JStr "Five"); ("price", JNum 5);
                  ("category", JStr "numbers"); ("inStock", JBool true)] !! "name")
      with (Some (JNum 5)) by (symmetry; by_eval).
    discriminate.
Defined.

(** ** The counts of the stats handler *)

Lemma in_category_cons c (p : object) (ps : store) :
  in_category c (p :: ps)
  = ((match lower_category p with
      | Some t => if String.eqb t c then 1 else 0
      | None => 0
      end) + in_category c ps)%Z.
Proof.
  unfold in_category. simpl.
  destruct (lower_category p) as [t|]; [|done].
  destruct (String.eqb t c); simpl; lia.
Qed.

Lemma in_category_nonneg c (ps : store) : (0 ≤ in_category c ps)%Z.
Proof. unfold in_category. lia. Qed.

(** The loop, from an object that holds the counts [a]. *)
Lemma count_categories_spec (ps : store) (categories : gmap string Z)
    (a : string → Z) :
  (∀ c, (0 ≤ a c)%Z ∧
        categories !! c = if (a c =? 0)%Z then None else Some (a c)) →
  Forall plain_category ps →
  ∃ counted : gmap string Z,
    count_categories ps categories = Normal counted ∧
    ∀ c, counted !! c =
           if (a c + in_category c ps =? 0)%Z then None
           else Some (a c + in_category c ps)%Z.
Proof.
  revert categories a. induction ps as [|p ps IH]; intros categories a Ha Hps.
  - exists categories. split; [done|]. intros c.
    unfold in_category. simpl. rewrite Z.add_0_r. apply Ha.
  - apply Forall_cons in Hps as [(cat & Hcat & _) Hps]. simpl.
    assert (Hcall : call_toLowerCase "product.category" (p !! "category")
                    = Normal cat).
    { unfold lower_category in Hcat.
      destruct (p !! "category") as [[| | |t| |]|]; try discriminate Hcat.
      by injection Hcat as <-. }
    rewrite Hcall. simpl.
    destruct (IH (<[cat := (num_or (categories !! cat) 0 + 1)%Z]> categories)
                 (λ c, (a c + if String.eqb cat c then 1 else 0)%Z))
      as (counted & Hc & Hcounted); [|exact Hps|].
    + intros c. destruct (Ha c) as [Hac Hlook].
      destruct (String.eqb_spec cat c) as [<-|Hne].
      * split; [lia|]. rewrite lookup_insert_eq.
        destruct (Ha cat) as [Hacat Hlcat]. rewrite Hlcat. unfold num_or.
        destruct (Z.eqb_spec (a cat) 0) as [->|Hnz].
        -- done.
        -- destruct (Z.eqb_spec (a cat) 0); [lia|].
           destruct (Z.eqb_spec (a cat + 1) 0); [lia | done].
      * split; [lia|]. rewrite lookup_insert_ne by done.
        by rewrite Z.add_0_r.
    + exists counted. split; [exact Hc|]. intros c.
      rewrite Hcounted, in_category_cons, Hcat.
      by rewrite Z.add_assoc.
Qed.

(** X16: over records whose category is text (and, lowered, neither
    "constructor" nor "__proto__"), the stats handler completes with
    [totalProducts] the number of records and with a [categories] object
    that holds, under each lowered category that occurs, the number of
    records of that category, and no other key. *)
Theorem get_stats_counts (ps : store) :
  Forall plain_category ps →
  ∃ counted : gmap string Z,
    get_stats ps
    = Normal (ps, ResJson 200
        (JObj (obj [("totalProducts", JNum (Z.of_nat (length ps)));
                    ("categories", JObj (JNum <$> counted))]))) ∧
    ∀ c, counted !! c =
           if (in_category c ps =? 0)%Z then None else Some (in_category c ps).
Proof.
  intros Hps.
  destruct (count_categories_spec ps ∅ (λ _, 0%Z)) as (counted & Hc & Hcounted);
    [by intros c; rewrite lookup_empty | exact Hps |].
  exists counted. split.
  - unfold get_stats. by rewrite Hc.
  - intros c. by rewrite Hcounted.
Qed.

Lemma plain_products : Forall plain_category products.
Proof.
  repeat apply Forall_cons_2; [| | |apply Forall_nil_2].
  - exists "electronics". split; [by_eval | split; discriminate].
  - exists "electronics". split; [by_eval | split; discriminate].
  - exists "kitchen". split; [by_eval | split; discriminate].
Qed.

Lemma get_stats_counts_witness :
  ∃ counted : gmap string Z,
    get_stats products
    = Normal (products, ResJson 200
        (JObj (obj [("totalProducts", JNum (Z.of_nat (length products)));
                    ("categories", JObj (JNum <$> counted))]))) ∧
    ∀ c, counted !! c =
           if (in_category c products =? 0)%Z then None
           else Some (in_category c products).
Proof. exact (get_stats_counts products plain_products). Defined.

(** ** Requests that do not read the body *)

(** X17: GET and DELETE requests do not read the body: with any two bodies
    the parser accepted, the outcome is the same (DELETE, unlike PUT, is
    not behind the validator). *)
Theorem body_not_read uuid (ps : store) m path key query (body body' : object) :
  m = GET ∨ m = DELETE →
  app uuid ps (Request m path key query (BodyOk body))
  = app uuid ps (Request m path key query (BodyOk body')).
Proof.
  intros Hm. unfold app. cbn [req_body req_api_key].
  destruct (auth_ok key); [|done]. unfold dispatch.
  cbn [req_method req_path req_query].
  destruct (match_route routes m path) as [[r params]|] eqn:Hr; [|done].
  apply match_route_sound in Hr as (Hin & Hr & _).
  apply routes_cases in Hin as [->|[->|[->|[->|[->|[->| ->]]]]]]; simpl in *;
    try done; destruct Hm; congruence.
Qed.

Lemma body_not_read_witness :
  app "u" products
    (Request DELETE ["api"; "products"; "1"] (Some "12345") ∅ (BodyOk ∅))
  = app "u" products
      (Request DELETE ["api"; "products"; "1"] (Some "12345") ∅
         (BodyOk full_body_999)).
Proof.
  apply (body_not_read "u" products DELETE ["api"; "products"; "1"]
           (Some "12345") ∅ ∅ full_body_999).
  by right.
Defined.
